(** * Variant reconciliation and score aggregation

    A shallow embedding of [pgs_calculator.py] (function [calculate_pgs]) and
    [snp_extractor.py] (function [extract_pgs_snps_to_dataset]), followed by
    the properties of the identifier normaliser, the variant-set matcher, the
    weight-table builder, the score aggregator and the genotype-matrix
    builder.

    Modelling conventions.
    - A pandas cell of a text column is an [option string]; [None] is the
      missing marker (NaN), which an f-string prints as [nan].
    - Numeric cells (scores, phenotypes) are [option Q]; the source computes
      with binary floating point, the embedding with exact rationals.
    - A Python [dict] is a [gmap], a Python [set] a [gset].
    - Sample identifiers, chromosomes and positions are the text of the
      files; files are given by their parsed content, scoring files
      together with their base name.  The key columns of the score tables
      and of the pedigree are taken to be read with one and the same type.
    - The external scorer (the [plink] sub-process) is a black box: a
      function from the weight table to an optional score table, [None]
      standing for a non-zero return code.
    - The scratch directory is a store from file names to score tables.
      It is there when the loop starts: the calls that make it and that
      read the panel stand outside every [try], and a failure there leaves
      the function by an exception, which is outside the embedding.
    - Messages are not represented.  A statement about a coverage is about
      the value the source computes, not about the two-decimal figure of
      the message that shows it.
    - The file system answers the one write of the result: a predicate on
      paths tells whether [to_csv] can create the file once its directory
      is there.  A path that names a directory ([results/], the scratch
      directory itself) is one it refuses.
    - A scoring file whose derived name is [FID] or [IID] would make the
      aggregation overwrite a key column with scores; what the merge does
      with such a column depends on the column types pandas infers, which
      are not represented.  The embedding keeps key columns and score
      columns apart, and the statements about the aggregate leave those
      two names out. *)

From Stdlib Require Import ZArith QArith List String Ascii Lia.
From stdpp Require Import base option list strings gmap sets.

Local Open Scope string_scope.
Local Open Scope list_scope.

(** ** Python string helpers *)

Module PyStr.

(** [s.replace(old, '')] for a non-empty [old]: left-to-right removal of
    the non-overlapping occurrences of [old].  [skip] counts the characters
    of the occurrence being dropped. *)
Fixpoint remove_from (old : string) (skip : nat) (s : string) : string :=
  match s with
  | EmptyString => EmptyString
  | String c rest =>
      match skip with
      | S k => remove_from old k rest
      | O =>
          if String.prefix old s
          then remove_from old (String.length old - 1) rest
          else String c (remove_from old 0 rest)
      end
  end.

Definition remove_all (old s : string) : string := remove_from old 0 s.

(** ['/' in s]: a path without a slash has an empty [os.path.dirname]. *)
Fixpoint has_slash (s : string) : bool :=
  match s with
  | EmptyString => false
  | String c rest => Ascii.eqb c "/" || has_slash rest
  end.

(** [os.path.basename(s)]: what follows the last slash. *)
Fixpoint basename (s : string) : string :=
  match s with
  | EmptyString => EmptyString
  | String c rest => if has_slash s then basename rest else s
  end.

(** A name without a full stop. *)
Fixpoint dotless (s : string) : bool :=
  match s with
  | EmptyString => true
  | String c rest => negb (Ascii.eqb c ".") && dotless rest
  end.

End PyStr.

(** ** The call of a sub-process *)

Module Subprocess.

(** The special values a [stdout] or [stderr] argument can take. *)
Inductive Stream : Type := PIPE | DEVNULL.

(** [subprocess.run(args, capture_output=..., stdout=..., stderr=...)].
    The standard library refuses [capture_output=True] together with a
    [stdout] or a [stderr] argument: it raises [ValueError] before the
    process is started.  [None] is that exception, [completed] what the
    process returns once it has run. *)
Definition run {R : Type} (capture_output : bool)
    (stdout stderr : option Stream) (completed : R) : option R :=
  match capture_output, stdout, stderr with
  | true, Some _, _ => None
  | true, None, Some _ => None
  | _, _, _ => Some completed
  end.

End Subprocess.

(** ** Tables shared by both modules *)

Module Tables.

(** A cell of a text column. *)
Abbreviation cell := (option string).

(** A cell of a numeric column. *)
Abbreviation num := (option Q).

(** What an f-string prints for a text cell. *)
Definition fmt (c : cell) : string :=
  match c with
  | Some s => s
  | None => "nan"
  end.

(** One row of the [.bim] file, read with
    [names=['chr','rsID','cm','pos','A1','A2']]. *)
Record BimRow : Type := mkBim {
  bim_chr : string;
  bim_rsID : cell;
  bim_cm : string;
  bim_pos : string;
  bim_A1 : string;
  bim_A2 : string
}.

(** One row of the [.fam] file, read with
    [names=['FID','IID','PID','MID','SEX','PHENOTYPE']]. *)
Record FamRow : Type := mkFam {
  fam_FID : string;
  fam_IID : string;
  fam_PID : string;
  fam_MID : string;
  fam_SEX : string;
  fam_PHENOTYPE : num
}.

(** One row of a scoring file.  A field is meaningful only when its column
    is listed in the header of the table. *)
Record PgsRow : Type := mkPgs {
  rsID : cell;
  chr_name : cell;
  chr_position : cell;
  effect_allele : cell;
  effect_weight : cell;
  original_id : cell
}.

(** A scoring file as [pd.read_csv] returns it: header and rows. *)
Record PgsData : Type := mkPgsData {
  columns : list string;
  rows : list PgsRow
}.

(** ['c' in pgs_data.columns] *)
Definition has_col (c : string) (d : PgsData) : bool :=
  bool_decide (c ∈ columns d).

(** [pgs_data[c] = ...] on the header: a new column goes last, an existing
    one keeps its place. *)
Definition add_col (c : string) (cols : list string) : list string :=
  if bool_decide (c ∈ cols) then cols else cols ++ [c].

(** [set(bim_data['rsID'])] *)
Definition bim_ids (bim : list BimRow) : gset cell :=
  list_to_set (map bim_rsID bim).

(** [f"chr{row['chr']}:{row['pos']}"] *)
Definition pos_id_of (chr pos : string) : string :=
  "chr" +:+ chr +:+ ":" +:+ pos.

(** [pos_dict[pos_id] = row['rsID']] *)
Definition pos_dict_put (pos_dict : gmap string cell) (row : BimRow)
    : gmap string cell :=
  <[pos_id_of (bim_chr row) (bim_pos row) := bim_rsID row]> pos_dict.

(** The loop [for _, row in bim_data.iterrows()]: a later row of the same
    locus overwrites an earlier one. *)
Definition build_pos_dict (bim : list BimRow) : gmap string cell :=
  fold_left pos_dict_put bim ∅.

(** [f"chr{row['chr_name']}:{row['chr_position']}"] *)
Definition synth_id (row : PgsRow) : string :=
  pos_id_of (fmt (chr_name row)) (fmt (chr_position row)).

(** [pos_dict.get(x, x)] *)
Definition dict_get_self (pos_dict : gmap string cell) (x : string) : cell :=
  match pos_dict !! x with
  | Some v => v
  | None => Some x
  end.

(** The three assignments under [if not is_rsid_based and is_position_based],
    row by row. *)
Definition resolve_row (pos_dict : gmap string cell) (row : PgsRow) : PgsRow :=
  let x := synth_id row in
  {| rsID := dict_get_self pos_dict x;
     chr_name := chr_name row;
     chr_position := chr_position row;
     effect_allele := effect_allele row;
     effect_weight := effect_weight row;
     original_id := Some x |}.

Definition is_rsid_based (d : PgsData) : bool := has_col "rsID" d.

Definition is_position_based (d : PgsData) : bool :=
  has_col "chr_name" d && has_col "chr_position" d.

(** The identifier normalisation both modules perform on a scoring file
    (lines 72-78 of [pgs_calculator.py], 51-56 of [snp_extractor.py]). *)
Definition normalize (pos_dict : gmap string cell) (d : PgsData) : PgsData :=
  if negb (is_rsid_based d) && is_position_based d
  then {| columns := add_col "original_id" (add_col "rsID" (columns d));
          rows := map (resolve_row pos_dict) (rows d) |}
  else d.

(** [set(pgs_data['rsID'])] *)
Definition pgs_ids (d : PgsData) : gset cell :=
  list_to_set (map rsID (rows d)).

(** [len(a) / len(b) * 100] *)
Definition percent (a b : nat) : Q :=
  (inject_Z (Z.of_nat a) / inject_Z (Z.of_nat b)) * 100.

End Tables.

Import Tables.

(** ** [pgs_calculator.py] *)

Module PgsCalculator.

(** The reasons for which the loop body reaches a [continue]; the last one
    stands for any other exception the [except] of line 120 catches. *)
Inductive ProcessingError : Type :=
| UnresolvableIdentifierScheme
| MissingRequiredColumns
| EmptyScoringDefinition
| NoOverlap
| ExternalScorerFailure
| OtherException.

(** One line of the weight file: [f"{snp_id} {effect_allele} {weight}\n"]. *)
Record WeightRow : Type := mkWeight {
  w_SNP : cell;
  w_A1 : cell;
  w_WEIGHT : cell
}.

(** One row of a [.profile] file; only the columns the source reads. *)
Record ProfileRow : Type := mkProfile {
  FID : string;
  IID : string;
  SCORE : num
}.

Abbreviation SampleKey := (string * string)%type.

Definition profile_key (r : ProfileRow) : SampleKey := (FID r, IID r).
Definition fam_key (r : FamRow) : SampleKey := (fam_FID r, fam_IID r).

(** [os.path.basename(pgs_file_path).replace('.txt', '')] on a base name. *)
Definition pgs_name (file : string) : string := PyStr.remove_all ".txt" file.

(** [f'{output_prefix}.profile'], inside the scratch directory. *)
Definition profile_path (name : string) : string := name +:+ ".profile".

(** [os.path.basename(profile_file).replace('.profile', '')] *)
Definition column_name (profile_file : string) : string :=
  PyStr.remove_all ".profile" profile_file.

Definition required_base_columns : list string :=
  ["effect_allele"; "effect_weight"].

(** [[col for col in required_base_columns if col not in pgs_data.columns]] *)
Definition missing_columns (d : PgsData) : list string :=
  filter (fun col => col ∉ columns d) required_base_columns.

(** [set(pgs_data['rsID']).intersection(snps)] *)
Definition common_snps (snps : gset cell) (d : PgsData) : gset cell :=
  pgs_ids d ∩ snps.

(** [len(common_snps)/len(pgs_data)*100] *)
Definition coverage (snps : gset cell) (d : PgsData) : Q :=
  percent (size (common_snps snps d)) (length (rows d)).

(** [pgs_data[pgs_data['rsID'].isin(common_snps)]] *)
Definition filtered_pgs (common : gset cell) (d : PgsData) : list PgsRow :=
  filter (fun row => rsID row ∈ common) (rows d).

(** The body of [for _, row in filtered_pgs.iterrows()]. *)
Definition weight_row (row : PgsRow) : WeightRow :=
  {| w_SNP := rsID row;
     w_A1 := effect_allele row;
     w_WEIGHT := effect_weight row |}.

Definition weight_table (common : gset cell) (d : PgsData) : list WeightRow :=
  map weight_row (filtered_pgs common d).

(** Lines 59-100: from a scoring file to its weight table, or to the
    reason for which the file is skipped.  A file without rows ends in the
    [ZeroDivisionError] of the coverage line, caught by the [except]. *)
Definition prepare_weights (snps : gset cell) (pos_dict : gmap string cell)
    (d : PgsData) : ProcessingError + list WeightRow :=
  if negb (is_rsid_based d) && negb (is_position_based d)
  then inl UnresolvableIdentifierScheme
  else
    match missing_columns d with
    | _ :: _ => inl MissingRequiredColumns
    | [] =>
        let d' := normalize pos_dict d in
        let common := common_snps snps d' in
        match length (rows d') with
        | O => inl EmptyScoringDefinition
        | S _ =>
            if (size common =? 0)%nat then inl NoOverlap
            else inr (weight_table common d')
        end
    end.

(** The scratch directory (score tables only) and the list the loop grows. *)
Record LoopState : Type := mkLoop {
  store : gmap string (list ProfileRow);
  profile_files : list string
}.

(** The aggregate before the pedigree is joined: the key columns of the
    base table and the score columns in the order of their first
    assignment.  All columns share the index [0 .. length keys - 1]. *)
Record Combined : Type := mkCombined {
  keys : list SampleKey;
  score_cols : list (string * list num)
}.

(** The dataset written to [output_csv_path]. *)
Record Dataset : Type := mkDataset {
  ds_keys : list SampleKey;
  ds_X : list (string * list num);
  ds_y : list num
}.

Definition header (ds : Dataset) : list string :=
  "FID" :: "IID" :: map fst (ds_X ds) ++ ["y"].


(** What the caller receives and what is left on disk. *)
Record RunResult : Type := mkRun {
  returned : option (list (string * list num) * list num);
  output_csv : option Dataset
}.

(** [return None, None] *)
Definition no_result : RunResult := {| returned := None; output_csv := None |}.

(** Assigning a series with index [0 .. m-1] to a frame with index
    [0 .. n-1]: row [i] takes the value at label [i], NaN if there is none. *)
Definition align (n : nat) (col : list num) : list num :=
  map (fun i => default None (col !! i)) (seq 0 n).

(** [combined[name] = vals] *)
Fixpoint set_col (name : string) (vals : list num)
    (cols : list (string * list num)) : list (string * list num) :=
  match cols with
  | [] => [(name, vals)]
  | (n, v) :: rest =>
      if bool_decide (n = name) then (n, vals) :: rest
      else (n, v) :: set_col name vals rest
  end.

(** [combined[name]] *)
Fixpoint get_col (name : string) (cols : list (string * list num))
    : option (list num) :=
  match cols with
  | [] => None
  | (n, v) :: rest =>
      if bool_decide (n = name) then Some v else get_col name rest
  end.

(** The body of [for profile_file in profile_files]; a file that cannot be
    read raises, which ends the aggregation. *)
Definition add_score (st : gmap string (list ProfileRow)) (c : Combined)
    (profile_file : string) : option Combined :=
  df ← st !! profile_file;
  Some {| keys := keys c;
          score_cols := set_col (column_name profile_file)
                          (align (length (keys c)) (map SCORE df))
                          (score_cols c) |}.

Fixpoint add_scores (st : gmap string (list ProfileRow)) (c : Combined)
    (files : list string) : option Combined :=
  match files with
  | [] => Some c
  | f :: rest => c' ← add_score st c f; add_scores st c' rest
  end.

(** Lines 130-139. *)
Definition combine_scores (st : gmap string (list ProfileRow))
    (files : list string) : option Combined :=
  match files with
  | [] => None
  | first :: _ =>
      base_df ← st !! first;
      add_scores st
        {| keys := map profile_key base_df; score_cols := [] |} files
  end.

(** The pedigree rows a left row is paired with. *)
Definition fam_matches (fam : list FamRow) (k : SampleKey) : list FamRow :=
  filter (fun r => fam_key r = k) fam.

(** [pd.merge(..., how='left')] for one left row: its index in the left
    frame with the phenotype of every matching pedigree row, or once with
    NaN when there is none. *)
Definition join_row (fam : list FamRow) (i : nat) (k : SampleKey)
    : list (nat * num) :=
  match fam_matches fam k with
  | [] => [(i, None)]
  | ms => map (fun r => (i, fam_PHENOTYPE r)) ms
  end.

Definition left_join (fam : list FamRow) (ks : list SampleKey)
    : list (nat * num) :=
  concat (imap (join_row fam) ks).

(** The rows of a left column after the merge. *)
Definition take_rows {A} (dflt : A) (idx : list nat) (col : list A) : list A :=
  map (fun i => default dflt (col !! i)) idx.

(** Lines 143-153.  A score column called [PHENOTYPE] makes the merge
    rename both [PHENOTYPE] columns, and the [drop] then raises. *)
Definition join_phenotype (fam : list FamRow) (c : Combined) : option Dataset :=
  if bool_decide ("PHENOTYPE" ∈ map fst (score_cols c)) then None
  else
    let merged := left_join fam (keys c) in
    let idx := map fst merged in
    Some {| ds_keys := take_rows (""%string, ""%string) idx (keys c);
            ds_X := map (fun nc => (fst nc, take_rows None idx (snd nc)))
                      (score_cols c);
            ds_y := map snd merged |}.

Definition aggregate (st : gmap string (list ProfileRow))
    (files : list string) (fam : list FamRow) : option Dataset :=
  c ← combine_scores st files; join_phenotype fam c.

Section Pipeline.

(** The external scorer: [plink --bfile ... --score weight_file 1 2 3
    header --out output_prefix].  [None] is a non-zero return code; a run
    that fails is taken to leave the score tables of the scratch directory
    as they were. *)
Variable plink_score : list WeightRow -> option (list ProfileRow).

Variable snps : gset cell.
Variable pos_dict : gmap string cell.

(** Lines 59-118: the outcome of one scoring file.  The scorer is called
    with [capture_output=True, text=True] and no stream argument. *)
Definition score_definition (d : PgsData)
    : ProcessingError + list ProfileRow :=
  match prepare_weights snps pos_dict d with
  | inl e => inl e
  | inr w =>
      match Subprocess.run true None None (plink_score w) with
      | None => inl OtherException
      | Some None => inl ExternalScorerFailure
      | Some (Some table) => inr table
      end
  end.

(** The body of [for pgs_file_path in pgs_files]. *)
Definition process_file (st : LoopState) (f : string * PgsData) : LoopState :=
  match score_definition (snd f) with
  | inl _ => st
  | inr table =>
      let out := profile_path (pgs_name (fst f)) in
      {| store := <[out := table]> (store st);
         profile_files := profile_files st ++ [out] |}
  end.

Definition process_files (st : LoopState) (files : list (string * PgsData))
    : LoopState :=
  fold_left process_file files st.

End Pipeline.

(** Lines 28-122: the panel is indexed and the scoring files are processed
    one after the other.  [scratch] is what the scratch directory holds on
    entry, [files] the scoring files in the order [glob] lists them. *)
Definition run_loop (plink_score : list WeightRow -> option (list ProfileRow))
    (bim : list BimRow) (scratch : gmap string (list ProfileRow))
    (files : list (string * PgsData)) : LoopState :=
  let snps := bim_ids bim in
  let pos_dict := build_pos_dict bim in
  process_files plink_score snps pos_dict
    {| store := scratch; profile_files := [] |} files.

(** Lines 155-156: [os.makedirs(os.path.dirname(output_csv_path),
    exist_ok=True)] raises on the empty directory name of a path without a
    slash (the directory of any other path is there already, the scratch
    directory was made inside it), and
    [final_dataset.to_csv(output_csv_path, index=False)] raises when the
    file system refuses the path ([IsADirectoryError] for [results/], for
    instance).  [writable] is the answer of the file system; [true] is a
    dataset on disk. *)
Definition save_dataset (writable : string -> bool)
    (output_csv_path : string) : bool :=
  PyStr.has_slash output_csv_path && writable output_csv_path.

(** [calculate_pgs].  An exception of the aggregation or of the write ends
    in [return None, None]. *)
Definition calculate_pgs
    (plink_score : list WeightRow -> option (list ProfileRow))
    (writable : string -> bool)
    (bim : list BimRow) (fam : list FamRow)
    (scratch : gmap string (list ProfileRow))
    (files : list (string * PgsData)) (output_csv_path : string) : RunResult :=
  let st := run_loop plink_score bim scratch files in
  match profile_files st with
  | [] => no_result
  | _ :: _ =>
      match aggregate (store st) (profile_files st) fam with
      | Some ds =>
          if save_dataset writable output_csv_path
          then {| returned := Some (ds_X ds, ds_y ds); output_csv := Some ds |}
          else no_result
      | None => no_result
      end
  end.

End PgsCalculator.

(** ** [snp_extractor.py] *)

Module SnpExtractor.

(** One row of the [.raw] file [plink --recode A] writes: the six leading
    columns and one dosage per extracted variant. *)
Record RawRow : Type := mkRaw {
  raw_FID : string;
  raw_IID : string;
  raw_PAT : string;
  raw_MAT : string;
  raw_SEX : string;
  raw_PHENOTYPE : num;
  raw_dosages : list num
}.

Record Genotypes : Type := mkGenotypes {
  snp_columns : list string;
  raw_rows : list RawRow
}.

(** [set(pgs_data['rsID'])] and its intersection with [set(bim_data['rsID'])] *)
Definition common_snps (bim : list BimRow) (d : PgsData) : gset cell :=
  pgs_ids d ∩ bim_ids bim.

(** [len(common_snps)/len(pgs_snps)*100] *)
Definition coverage (bim : list BimRow) (d : PgsData) : Q :=
  percent (size (common_snps bim d)) (size (pgs_ids d)).

(** [df['FID'].astype(str) + '_' + df['IID'].astype(str)] *)
Definition sample_id (fid iid : string) : string := fid +:+ "_" +:+ iid.

Definition phenotype_put (d : gmap string num) (r : FamRow) : gmap string num :=
  <[sample_id (fam_FID r) (fam_IID r) := fam_PHENOTYPE r]> d.

(** [dict(zip(fam_data['ID'], fam_data['PHENOTYPE']))]: the last row of an
    ID is the one the dictionary keeps. *)
Definition phenotype_dict (fam : list FamRow) : gmap string num :=
  fold_left phenotype_put fam ∅.

(** [genotypes['ID'].map(phenotype_dict)]: an ID the dictionary lacks maps
    to NaN. *)
Definition labels (fam : list FamRow) (g : Genotypes) : list num :=
  map (fun r =>
         default None
           (phenotype_dict fam !! sample_id (raw_FID r) (raw_IID r)))
      (raw_rows g).

(** [genotypes.drop(['FID','IID','PAT','MAT','SEX','PHENOTYPE'], axis=1)] *)
Definition features (g : Genotypes) : list string * list (list num) :=
  (snp_columns g, map raw_dosages (raw_rows g)).

Section Extraction.

(** The two sub-processes, [--extract ... --make-bed] and [--recode A];
    [None] is a non-zero return code. *)
Variable Bed : Type.
Variable plink_extract : gset cell -> option Bed.
Variable plink_recode : Bed -> option Genotypes.

(** [extract_pgs_snps_to_dataset]; [None] is [return None, None].  A file
    without identifiers ends in the [ZeroDivisionError] of the coverage
    line, caught by the [except].  Both sub-processes are called with
    [capture_output=True, text=True, stdout=subprocess.DEVNULL,
    stderr=subprocess.DEVNULL]; an exception of the call is caught by the
    same [except]. *)
Definition extract_pgs_snps_to_dataset (pgs_data : PgsData)
    (bim : list BimRow) (fam : list FamRow)
    : option ((list string * list (list num)) * list num) :=
  if negb (is_rsid_based pgs_data) && negb (is_position_based pgs_data)
  then None
  else
    let d := normalize (build_pos_dict bim) pgs_data in
    let common := common_snps bim d in
    match size (pgs_ids d) with
    | O => None
    | S _ =>
        extract_result ←
          Subprocess.run true
            (Some Subprocess.DEVNULL) (Some Subprocess.DEVNULL)
            (plink_extract common);
        bed ← extract_result;
        recode_result ←
          Subprocess.run true
            (Some Subprocess.DEVNULL) (Some Subprocess.DEVNULL)
            (plink_recode bed);
        genotypes ← recode_result;
        Some (features genotypes, labels fam genotypes)
    end.

End Extraction.

End SnpExtractor.

(** ** Concrete panels, scoring files and scorers

    The scenario of the specification (panel [rs1], [rs2], [rs3]; samples
    [(F1,I1)] and [(F2,I2)]) and the inputs used further down. *)

Module Examples.

Import PgsCalculator.

Definition panel : list BimRow :=
  [ mkBim "1" (Some "rs1") "0" "100" "A" "G";
    mkBim "1" (Some "rs2") "0" "200" "C" "T";
    mkBim "2" (Some "rs3") "0" "300" "A" "C" ].

Definition pedigree : list FamRow :=
  [ mkFam "F1" "I1" "0" "0" "1" (Some 1%Q);
    mkFam "F2" "I2" "0" "0" "2" (Some 2%Q) ].

(** A row of an rsID-based file and a row of a position-based file. *)
Definition by_rsid (id : cell) (allele weight : string) : PgsRow :=
  mkPgs id None None (Some allele) (Some weight) None.

Definition by_position (chr pos allele weight : string) : PgsRow :=
  mkPgs None (Some chr) (Some pos) (Some allele) (Some weight) None.

Definition rsid_header : list string :=
  ["rsID"; "effect_allele"; "effect_weight"].

Definition position_header : list string :=
  ["chr_name"; "chr_position"; "effect_allele"; "effect_weight"].

(** Definition A of the scenario: [rs1], [rs2], [rs9]. *)
Definition def_A : PgsData :=
  mkPgsData rsid_header
    [ by_rsid (Some "rs1") "A" "0.1";
      by_rsid (Some "rs2") "T" "0.2";
      by_rsid (Some "rs9") "G" "0.3" ].

(** Definition B of the scenario: one locus, resolved to [rs3]. *)
Definition def_B : PgsData :=
  mkPgsData position_header [ by_position "2" "300" "A" "0.5" ].

(** A position-based file with a locus the panel does not have. *)
Definition def_unknown_locus : PgsData :=
  mkPgsData position_header [ by_position "7" "700" "A" "0.5" ].

(** A file with an [rsID] column and the two position columns, whose second
    row has an empty rsID at a locus of the panel. *)
Definition def_mixed : PgsData :=
  mkPgsData ("rsID" :: position_header)
    [ mkPgs (Some "rs1") (Some "1") (Some "100") (Some "A") (Some "0.1") None;
      mkPgs None (Some "2") (Some "300") (Some "A") (Some "0.5") None ].

(** The same variant listed twice, and the file after normalisation. *)
Definition def_twice : PgsData :=
  mkPgsData rsid_header
    [ by_rsid (Some "rs1") "A" "0.1"; by_rsid (Some "rs1") "A" "0.4" ].

Definition twice_normalized : PgsData :=
  normalize (build_pos_dict panel) def_twice.

Definition def_no_scheme : PgsData :=
  mkPgsData ["effect_allele"; "effect_weight"] [ by_rsid None "A" "0.1" ].

Definition def_no_weight : PgsData :=
  mkPgsData ["rsID"; "effect_allele"] [ by_rsid (Some "rs1") "A" "0.1" ].

Definition def_empty : PgsData := mkPgsData rsid_header [].

Definition def_no_overlap : PgsData :=
  mkPgsData rsid_header [ by_rsid (Some "rs9") "G" "0.3" ].

(** A scorer that gives every sample of [pedigree] the number of weight
    rows it was handed. *)
Definition count_scorer (w : list WeightRow) : option (list ProfileRow) :=
  let s := Some (inject_Z (Z.of_nat (length w))) in
  Some [ mkProfile "F1" "I1" s; mkProfile "F2" "I2" s ].

(** A scorer that always exits with a non-zero code. *)
Definition failing_scorer (w : list WeightRow) : option (list ProfileRow) :=
  None.

(** A scorer whose table for a one-row weight file lists a sample the
    table for longer weight files does not have. *)
Definition table_F1 : list ProfileRow := [ mkProfile "F1" "I1" (Some 0.5%Q) ].
Definition table_F9 : list ProfileRow := [ mkProfile "F9" "I9" (Some 0.7%Q) ].

Definition shifting_scorer (w : list WeightRow) : option (list ProfileRow) :=
  match w with
  | [_] => Some table_F9
  | _ => Some table_F1
  end.

(** The two definitions of the scenario, and the state in which the loop
    leaves the scratch directory when [shifting_scorer] scores them. *)
Definition scenario_files : list (string * PgsData) :=
  [("A.txt", def_A); ("B.txt", def_B)].

Definition mismatch_state : LoopState :=
  run_loop shifting_scorer panel ∅ scenario_files.


(** Where the scenario writes its dataset. *)
Definition out_path : string := "results/pgs_dataset.csv".

(** A file system that refuses the paths which name a directory (a path
    ending in a slash, in [.] or in [..], and the scratch directory
    [temp_pgs] beside the output) and accepts every other one. *)
Definition disk (path : string) : bool :=
  bool_decide (PyStr.basename path ∉ [""; "."; ".."; "temp_pgs"]).

(** The dataset of the scenario. *)
Definition scenario_dataset : Dataset :=
  {| ds_keys := [("F1", "I1"); ("F2", "I2")];
     ds_X := [("A", [Some 2%Q; Some 2%Q]); ("B", [Some 1%Q; Some 1%Q])];
     ds_y := [Some 1%Q; Some 2%Q] |}.

(** Two files of one folder whose names differ and whose derived names agree. *)
Definition colliding_files : list (string * PgsData) :=
  [("a.txt", def_A); ("a.txt.txt", def_B)].




(** Two samples whose identifiers differ and whose [FID_IID] strings agree. *)
Definition pedigree_underscore : list FamRow :=
  [ mkFam "a" "b_c" "0" "0" "1" (Some 2%Q) ].

Definition genotypes_underscore : SnpExtractor.Genotypes :=
  SnpExtractor.mkGenotypes ["rs1_A"]
    [ SnpExtractor.mkRaw "a_b" "c" "0" "0" "1" None [Some 1%Q] ].

(** Two sub-processes that exit with code zero whenever they are run. *)
Definition extract_ok (snp_list : gset cell) : option unit := Some tt.

Definition recode_ok (bed : unit) : option SnpExtractor.Genotypes :=
  Some genotypes_underscore.

End Examples.

(** ** Four sentences of the specification, as they are worded *)

Module Stated.

Import PgsCalculator.

(** "For every ScoringEntry carrying (chromosome, position) but no rsID ...
    if the key is found, the canonical identifier is the reference panel's
    ID at that locus, and if it is not found, the canonical identifier is
    exactly the synthesized positional string itself."  An entry has no
    rsID when the file has no such column or when its cell is empty. *)
Definition positional_entry_is_resolved (bim : list BimRow) (d : PgsData)
    : Prop :=
  forall i row c p,
    is_position_based d = true ->
    rows d !! i = Some row ->
    chr_name row = Some c ->
    chr_position row = Some p ->
    is_rsid_based d = false \/ rsID row = None ->
    exists row',
      rows (normalize (build_pos_dict bim) d) !! i = Some row' /\
      rsID row' = dict_get_self (build_pos_dict bim) (pos_id_of c p).

(** "A SampleKey present in a later table but absent from the base ...
    that one definition's column is excluded from the final dataset." *)
Definition mismatch_excludes_column (st : gmap string (list ProfileRow))
    (files : list string) (fam : list FamRow) : Prop :=
  forall first rest base f df ds,
    files = first :: rest ->
    st !! first = Some base ->
    f ∈ rest ->
    st !! f = Some df ->
    (exists k, k ∈ map profile_key df /\ k ∉ map profile_key base) ->
    aggregate st files fam = Some ds ->
    column_name f ∉ map fst (ds_X ds).


(** "Left join semantics, nulls preserved for unmatched samples": a sample
    of the dosage table without a pedigree row of the same SampleKey has a
    null label. *)
Definition unmatched_label_is_null (fam : list FamRow)
    (g : SnpExtractor.Genotypes) : Prop :=
  forall i r,
    SnpExtractor.raw_rows g !! i = Some r ->
    (forall p, p ∈ fam ->
       fam_key p <> (SnpExtractor.raw_FID r, SnpExtractor.raw_IID r)) ->
    SnpExtractor.labels fam g !! i = Some None.

End Stated.

(** ** Plain names *)

Module Names.

Import PgsCalculator.


(** A folder whose files are called [n.txt], with a stem [n] that holds no
    full stop and is not the name of a key column. *)
Definition plain (files : list (string * PgsData)) : Prop :=
  forall f, f ∈ files ->
    exists n, fst f = n +:+ ".txt" /\ PyStr.dotless n = true /\
              n <> "FID" /\ n <> "IID".

(** The name of a scored file, nothing for a skipped one. *)
Definition scored_name
    (plink_score : list WeightRow -> option (list ProfileRow))
    (bim : list BimRow) (f : string * PgsData) : option string :=
  match score_definition plink_score (bim_ids bim) (build_pos_dict bim)
          (snd f) with
  | inr _ => Some (pgs_name (fst f))
  | inl _ => None
  end.

End Names.

(** ** More inputs *)

Module MoreExamples.

Import PgsCalculator.


(** A panel that lists the locus [1:100] twice, under two identifiers. *)
Definition panel_relisted : list BimRow :=
  [ mkBim "1" (Some "rs_old") "0" "100" "A" "G";
    mkBim "2" (Some "rs3") "0" "300" "A" "C";
    mkBim "1" (Some "rs_new") "0" "100" "A" "G" ].

(** A position-based file with a locus of the panel and an unknown one. *)
Definition def_two_loci : PgsData :=
  mkPgsData Examples.position_header
    [ Examples.by_position "7" "700" "A" "0.5";
      Examples.by_position "2" "300" "C" "0.25" ].

End MoreExamples.

(** * Properties *)

(** Closed decidable goals are settled by evaluation. *)
Ltac by_evaluation :=
  match goal with
  | |- ?P => apply (bool_decide_unpack P); vm_compute; exact I
  end.

Import PgsCalculator.

(** ** IdentifierNormalizer *)

Section PositionIndex.

Implicit Types (bim : list BimRow) (m : gmap string cell) (x : string).

(** A key found after the loop was in the dictionary before it, or was
    written by a row of the panel. *)
Lemma pos_dict_fold_Some bim m x id :
  fold_left pos_dict_put bim m !! x = Some id ->
  m !! x = Some id \/
  exists b, b ∈ bim /\ pos_id_of (bim_chr b) (bim_pos b) = x /\ bim_rsID b = id.
Proof.
  revert m. induction bim as [|b bim IH]; intros m H; simpl in H.
  - by left.
  - apply IH in H as [H | (b' & Hin & Hx & Hid)].
    + unfold pos_dict_put in H.
      destruct (decide (pos_id_of (bim_chr b) (bim_pos b) = x)) as [Heq | Hne].
      * rewrite Heq, lookup_insert_eq in H. right. exists b.
        split; [apply list_elem_of_here | split; congruence].
      * rewrite lookup_insert_ne in H by done. by left.
    + right. exists b'. split; [by apply list_elem_of_further | done].
Qed.

(** A key absent after the loop was written by no row of the panel. *)
Lemma pos_dict_fold_None bim m x :
  fold_left pos_dict_put bim m !! x = None ->
  m !! x = None /\
  forall b, b ∈ bim -> pos_id_of (bim_chr b) (bim_pos b) <> x.
Proof.
  revert m. induction bim as [|b bim IH]; intros m H; simpl in H.
  - split; [done | intros b Hb; by apply elem_of_nil in Hb].
  - apply IH in H as [H Hrest]. unfold pos_dict_put in H.
    apply lookup_insert_None in H as [Hm Hne].
    split; [done |]. intros b' Hb'.
    apply elem_of_cons in Hb' as [-> | Hb']; [done | by apply Hrest].
Qed.

Lemma build_pos_dict_Some bim x id :
  build_pos_dict bim !! x = Some id ->
  exists b, b ∈ bim /\ pos_id_of (bim_chr b) (bim_pos b) = x /\ bim_rsID b = id.
Proof.
  intros H. apply pos_dict_fold_Some in H as [H | H]; [| done].
  by rewrite lookup_empty in H.
Qed.

Lemma build_pos_dict_None bim x :
  build_pos_dict bim !! x = None ->
  forall b, b ∈ bim -> pos_id_of (bim_chr b) (bim_pos b) <> x.
Proof. intros H. by apply pos_dict_fold_None in H as [_ H]. Qed.

(** With one row per locus the dictionary returns the identifier of that row. *)
Lemma build_pos_dict_unique bim b :
  b ∈ bim ->
  (forall b', b' ∈ bim ->
     pos_id_of (bim_chr b') (bim_pos b') = pos_id_of (bim_chr b) (bim_pos b) ->
     b' = b) ->
  build_pos_dict bim !! pos_id_of (bim_chr b) (bim_pos b) = Some (bim_rsID b).
Proof.
  intros Hin Huniq.
  destruct (build_pos_dict bim !! pos_id_of (bim_chr b) (bim_pos b))
    as [id|] eqn:E.
  - apply build_pos_dict_Some in E as (b' & Hb' & Hx & Hid).
    apply Huniq in Hx; [| done]. by subst.
  - eapply build_pos_dict_None in E; [| exact Hin]. done.
Qed.

End PositionIndex.

Lemma normalize_position_based pos_dict d :
  is_rsid_based d = false -> is_position_based d = true ->
  rows (normalize pos_dict d) = map (resolve_row pos_dict) (rows d).
Proof. intros H1 H2. unfold normalize. by rewrite H1, H2. Qed.

Lemma normalize_rsid_based pos_dict d :
  is_rsid_based d = true -> normalize pos_dict d = d.
Proof. intros H. unfold normalize. by rewrite H. Qed.

(** C4 (as the code has it).  The identifier scheme is chosen for the file
    as a whole.  In a scoring file with the two position columns and
    without an [rsID] column, an entry carrying chromosome [c] and position
    [p] gets the synthesized string [chr{c}:{p}], which is looked up in the
    position index of the panel: when the key is found the canonical
    identifier is the identifier a panel row of that locus carries, and
    when it is not found (no panel row has that locus) the canonical
    identifier is the synthesized string itself.  In a file that has an
    [rsID] column the entry is left as it is, with or without an rsID of
    its own. *)
Theorem positional_entry_canonical_id bim d i row c p :
  is_position_based d = true ->
  rows d !! i = Some row ->
  chr_name row = Some c ->
  chr_position row = Some p ->
  let x := "chr" +:+ c +:+ ":" +:+ p in
  exists row',
    rows (normalize (build_pos_dict bim) d) !! i = Some row' /\
    if is_rsid_based d then row' = row
    else
      original_id row' = Some x /\
      match build_pos_dict bim !! x with
      | Some id =>
          rsID row' = id /\
          exists b, b ∈ bim /\
            "chr" +:+ bim_chr b +:+ ":" +:+ bim_pos b = x /\ bim_rsID b = id
      | None =>
          rsID row' = Some x /\
          forall b, b ∈ bim -> "chr" +:+ bim_chr b +:+ ":" +:+ bim_pos b <> x
      end.
Proof.
  intros Hpos Hrow Hc Hp x.
  destruct (is_rsid_based d) eqn:Hrs.
  { exists row. by rewrite normalize_rsid_based. }
  exists (resolve_row (build_pos_dict bim) row).
  assert (Hx : synth_id row = x).
  { unfold synth_id. by rewrite Hc, Hp. }
  split.
  - rewrite normalize_position_based by done.
    change (map (resolve_row (build_pos_dict bim)) (rows d))
      with (resolve_row (build_pos_dict bim) <$> rows d).
    by rewrite list_lookup_fmap, Hrow.
  - split; [simpl; by rewrite Hx |].
    simpl. rewrite Hx. unfold dict_get_self.
    destruct (build_pos_dict bim !! x) as [id|] eqn:E.
    + split; [done |]. by apply build_pos_dict_Some.
    + split; [done |]. by apply build_pos_dict_None.
Qed.

Lemma positional_entry_canonical_id_witness :
  exists row',
    rows (normalize (build_pos_dict Examples.panel) Examples.def_B) !! 0%nat
      = Some row' /\
    original_id row' = Some "chr2:300" /\
    rsID row' = Some "rs3".
Proof.
  destruct (positional_entry_canonical_id Examples.panel Examples.def_B 0
              (Examples.by_position "2" "300" "A" "0.5") "2" "300"
              eq_refl eq_refl eq_refl eq_refl)
    as (row' & H1 & H2).
  change (is_rsid_based Examples.def_B) with false in H2.
  destruct H2 as [H2 H3].
  exists row'. split; [exact H1 | split; [exact H2 |]].
  change (build_pos_dict Examples.panel !! ("chr" +:+ "2" +:+ ":" +:+ "300"))
    with (Some (Some "rs3") : option cell) in H3.
  exact (proj1 H3).
Defined.

(** C4, the sentence of the specification.  [def_mixed] has an [rsID]
    column beside the two position columns.  Its second entry carries
    chromosome 2 and position 300, a locus the panel lists as [rs3], and no
    rsID: nothing is synthesized for it and its canonical identifier stays
    empty. *)
Lemma entry_without_rsid_is_not_resolved :
  rsID <$> rows (normalize (build_pos_dict Examples.panel) Examples.def_mixed)
           !! 1%nat
  = Some None /\
  dict_get_self (build_pos_dict Examples.panel) (pos_id_of "2" "300")
  = Some "rs3" /\
  ~ Stated.positional_entry_is_resolved Examples.panel Examples.def_mixed.
Proof.
  split; [reflexivity |]. split; [reflexivity |].
  intros H.
  destruct (H 1%nat
              (mkPgs None (Some "2") (Some "300") (Some "A") (Some "0.5") None)
              "2" "300" eq_refl eq_refl eq_refl eq_refl (or_intror eq_refl))
    as (row' & Hrow & Hid).
  vm_compute in Hrow. injection Hrow as <-.
  vm_compute in Hid. discriminate Hid.
Qed.

(** The locus of [def_unknown_locus] is not in the panel: the synthesized
    string is kept. *)
Example unknown_locus_keeps_synthesized_id :
  map rsID (rows (normalize (build_pos_dict Examples.panel)
                    Examples.def_unknown_locus))
  = [Some "chr7:700"].
Proof. reflexivity. Qed.

(** C10.  Identifier-scheme detection is by column: a scoring file with an
    [rsID] column is left as it is by the normalisation, whatever the
    position index holds and whether or not the position columns are there
    too.  Every entry keeps its rsID cell, an empty one included, as its
    canonical identifier, and the outcome of both pipelines does not depend
    on the position index. *)
Theorem rsid_column_disables_positional_resolution bim snps d :
  "rsID" ∈ columns d ->
  normalize (build_pos_dict bim) d = d /\
  map rsID (rows (normalize (build_pos_dict bim) d)) = map rsID (rows d) /\
  prepare_weights snps (build_pos_dict bim) d = prepare_weights snps ∅ d /\
  SnpExtractor.common_snps bim (normalize (build_pos_dict bim) d)
    = SnpExtractor.common_snps bim d.
Proof.
  intros Hcol.
  assert (Hrs : is_rsid_based d = true).
  { unfold is_rsid_based, has_col. by apply bool_decide_eq_true. }
  assert (Hn : forall pd, normalize pd d = d).
  { intros pd. by apply normalize_rsid_based. }
  repeat split.
  - apply Hn.
  - by rewrite Hn.
  - unfold prepare_weights. by rewrite !Hn.
  - by rewrite Hn.
Qed.

Lemma rsid_column_disables_positional_resolution_witness :
  map rsID (rows (normalize (build_pos_dict Examples.panel) Examples.def_mixed))
  = [Some "rs1"; None] /\
  build_pos_dict Examples.panel !! "chr2:300" = Some (Some "rs3").
Proof.
  split; [| reflexivity].
  assert (Hcol : "rsID" ∈ columns Examples.def_mixed)
    by apply list_elem_of_here.
  destruct (rsid_column_disables_positional_resolution
              Examples.panel (bim_ids Examples.panel) Examples.def_mixed Hcol)
    as (_ & H & _).
  exact H.
Defined.

(** ** WeightTableBuilder *)

Lemma normalize_length pos_dict d :
  length (rows (normalize pos_dict d)) = length (rows d).
Proof.
  unfold normalize.
  destruct (negb (is_rsid_based d) && is_position_based d); [| done].
  simpl. apply length_map.
Qed.

(** What a weight table that reaches the scorer was computed from. *)
Lemma prepare_weights_inr snps pos_dict d wt :
  prepare_weights snps pos_dict d = inr wt ->
  let d' := normalize pos_dict d in
  wt = weight_table (common_snps snps d') d' /\
  size (common_snps snps d') <> 0%nat /\
  rows d <> [].
Proof.
  unfold prepare_weights. intros H.
  destruct (negb (is_rsid_based d) && negb (is_position_based d)); [done |].
  destruct (missing_columns d); [| done].
  pose proof (normalize_length pos_dict d) as Hlen.
  destruct (length (rows (normalize pos_dict d))) eqn:Hn; [done |].
  destruct (size (common_snps snps (normalize pos_dict d)) =? 0)%nat eqn:Hs;
    [done |].
  apply Nat.eqb_neq in Hs. injection H as <-.
  repeat split; [done |].
  intros Hnil. rewrite Hnil in Hlen. done.
Qed.

(** Filtering on membership in a set keeps every occurrence of the members. *)
Lemma filter_member_keeps_occurrences {A} (f : A -> cell) (ids : gset cell)
    (id : cell) (l : list A) :
  id ∈ ids ->
  filter (eq id) (f <$> filter (fun x => f x ∈ ids) l)
  = filter (eq id) (f <$> l).
Proof.
  intros Hid. induction l as [|x l IH]; [done |].
  rewrite filter_cons. destruct (decide (f x ∈ ids)) as [Hx | Hx].
  - rewrite !fmap_cons, !filter_cons, IH. done.
  - rewrite fmap_cons, (filter_cons_False _ (f x)); [done |].
    intros ->. done.
Qed.

(** C5.  When a scoring file has at least one matched variant (its weight
    table reaches the scorer), the weight table is the file's entries whose
    canonical identifier is matched, each projected to (identifier, effect
    allele, effect weight): it is a subsequence of the projected entries
    (source order, no re-sort), every matched identifier occurs in it as
    often as in the file (no deduplication), it has at most as many rows as
    the file, and every identifier in it is in the panel's variant set. *)
Theorem weight_table_is_stable_projection snps pos_dict d wt :
  prepare_weights snps pos_dict d = inr wt ->
  let d' := normalize pos_dict d in
  let matched := pgs_ids d' ∩ snps in
  wt = (fun row => mkWeight (rsID row) (effect_allele row) (effect_weight row))
         <$> filter (fun row => rsID row ∈ matched) (rows d') /\
  wt `sublist_of`
    ((fun row => mkWeight (rsID row) (effect_allele row) (effect_weight row))
       <$> rows d') /\
  (forall id, id ∈ matched ->
     length (filter (eq id) (w_SNP <$> wt))
     = length (filter (eq id) (rsID <$> rows d'))) /\
  (length wt <= length (rows d))%nat /\
  (forall w, w ∈ wt -> w_SNP w ∈ snps).
Proof.
  intros H d' matched.
  apply prepare_weights_inr in H as (-> & _ & _).
  fold d'. unfold weight_table, filtered_pgs, common_snps. fold matched.
  change (map weight_row) with (fmap (M:=list) weight_row).
  split; [done |]. split; [| split; [| split]].
  - apply fmap_sublist, sublist_filter.
  - intros id Hid. rewrite <- list_fmap_compose.
    change (w_SNP ∘ weight_row) with rsID.
    by rewrite (filter_member_keeps_occurrences rsID matched).
  - rewrite length_fmap. etrans; [apply length_filter |].
    unfold d'. by rewrite normalize_length.
  - intros w Hw. apply list_elem_of_fmap in Hw as (row & -> & Hrow).
    apply list_elem_of_filter in Hrow as [Hm _]. simpl.
    unfold matched in Hm. by apply elem_of_intersection in Hm as [_ Hm].
Qed.

Lemma weight_table_is_stable_projection_witness :
  exists wt,
    prepare_weights (bim_ids Examples.panel) (build_pos_dict Examples.panel)
      Examples.def_A = inr wt /\
    (length wt <= 3)%nat /\
    (forall w, w ∈ wt -> w_SNP w ∈ bim_ids Examples.panel).
Proof.
  eexists. split; [reflexivity |].
  pose proof (weight_table_is_stable_projection
                (bim_ids Examples.panel) (build_pos_dict Examples.panel)
                Examples.def_A _ eq_refl) as (_ & _ & _ & Hlen & Hin).
  split; [exact Hlen | exact Hin].
Defined.

(** A repeated variant is written once per row. *)
Example repeated_variant_is_not_deduplicated :
  prepare_weights (bim_ids Examples.panel) (build_pos_dict Examples.panel)
    Examples.def_twice
  = inr [ mkWeight (Some "rs1") (Some "A") (Some "0.1");
          mkWeight (Some "rs1") (Some "A") (Some "0.4") ].
Proof. reflexivity. Qed.

(** ** VariantSetMatcher *)

Lemma size_list_to_set_le (l : list cell) :
  (size (list_to_set (C:=gset cell) l) <= length l)%nat.
Proof.
  unfold size, set_size. simpl. apply submseteq_length, NoDup_submseteq.
  - apply NoDup_elements.
  - intros x Hx. apply elem_of_elements in Hx.
    by apply elem_of_list_to_set in Hx.
Qed.

Section Percent.

Local Open Scope Q_scope.

Lemma percent_range (a b : nat) :
  (a <= b)%nat -> (0 < b)%nat -> 0 <= percent a b /\ percent a b <= 100.
Proof.
  intros Hab Hb. unfold percent.
  assert (Hb' : 0 < inject_Z (Z.of_nat b)).
  { change 0 with (inject_Z 0). rewrite <- Zlt_Qlt. lia. }
  assert (Ha' : 0 <= inject_Z (Z.of_nat a)).
  { change 0 with (inject_Z 0). rewrite <- Zle_Qle. lia. }
  assert (Hab' : inject_Z (Z.of_nat a) <= inject_Z (Z.of_nat b)).
  { rewrite <- Zle_Qle. lia. }
  split.
  - apply Qmult_le_0_compat; [| done].
    apply Qle_shift_div_l; [done |]. by rewrite Qmult_0_l.
  - apply Qle_trans with (1 * 100); [| by compute].
    apply Qmult_le_compat_r; [| by compute].
    apply Qle_shift_div_r; [done |]. by rewrite Qmult_1_l.
Qed.

Lemma percent_full (a b : nat) :
  (0 < b)%nat -> percent a b == 100 <-> a = b.
Proof.
  intros Hb. unfold percent.
  assert (Hb' : ~ inject_Z (Z.of_nat b) == 0).
  { change 0 with (inject_Z 0). rewrite inject_Z_injective. lia. }
  split.
  - intros H.
    assert (H1 : inject_Z (Z.of_nat a) / inject_Z (Z.of_nat b) == 1).
    { apply (Qmult_inj_r _ _ 100); [done |]. by rewrite H, Qmult_1_l. }
    assert (H2 : inject_Z (Z.of_nat a) == inject_Z (Z.of_nat b)).
    { rewrite <- (Qmult_div_r (inject_Z (Z.of_nat a)) (inject_Z (Z.of_nat b)))
        by done.
      rewrite H1. ring. }
    rewrite inject_Z_injective in H2. lia.
  - intros ->. field. done.
Qed.

End Percent.

Lemma size_list_to_set_full (l : list cell) :
  size (list_to_set (C:=gset cell) l) = length l <-> NoDup l.
Proof.
  split; [| apply size_list_to_set].
  unfold size, set_size. simpl. intros Hlen.
  assert (Hsub : elements (list_to_set (C:=gset cell) l) ⊆+ l).
  { apply NoDup_submseteq; [apply NoDup_elements |].
    intros x Hx. apply elem_of_elements in Hx.
    by apply elem_of_list_to_set in Hx. }
  apply submseteq_length_Permutation in Hsub; [| lia].
  rewrite <- Hsub. apply NoDup_elements.
Qed.

Lemma size_intersection_full (X Y : gset cell) :
  size (X ∩ Y) = size X <-> X ⊆ Y.
Proof.
  split.
  - intros Hsz.
    assert (Heq : X ∩ Y = X).
    { apply set_subseteq_size_eq; [apply intersection_subseteq_l | lia]. }
    rewrite <- Heq. apply intersection_subseteq_r.
  - intros Hsub. f_equal. by apply subseteq_intersection_1_L.
Qed.

Lemma pgs_ids_subseteq (d : PgsData) (ids : gset cell) :
  pgs_ids d ⊆ ids <-> forall row, row ∈ rows d -> rsID row ∈ ids.
Proof.
  unfold pgs_ids. split.
  - intros H row Hrow. apply H, elem_of_list_to_set.
    apply (list_elem_of_fmap_2 rsID), Hrow.
  - intros H id Hid. apply elem_of_list_to_set in Hid.
    apply list_elem_of_fmap in Hid as (row & -> & Hrow). by apply H.
Qed.

Lemma pgs_ids_size_pos (d : PgsData) :
  rows d <> [] -> (0 < size (pgs_ids d))%nat.
Proof.
  intros Hne. destruct (rows d) as [|row l] eqn:E; [done |].
  assert (Hn : size (pgs_ids d) <> 0%nat); [| lia].
  apply size_non_empty_iff. unfold pgs_ids. rewrite E. simpl.
  intros Hempty. apply (not_elem_of_empty (C:=gset cell) (rsID row)).
  rewrite <- Hempty. apply elem_of_union_l. by apply elem_of_singleton.
Qed.

(** The extraction pipeline divides two set sizes: its coverage is in
    [[0, 100]] and is 100 exactly when every entry has its canonical
    identifier in the panel. *)
Lemma extractor_coverage_spec bim d :
  rows d <> [] ->
  (0 <= SnpExtractor.coverage bim d)%Q /\
  (SnpExtractor.coverage bim d <= 100)%Q /\
  ((SnpExtractor.coverage bim d == 100)%Q <->
   forall row, row ∈ rows d -> rsID row ∈ bim_ids bim).
Proof.
  intros Hne. unfold SnpExtractor.coverage, SnpExtractor.common_snps.
  pose proof (pgs_ids_size_pos d Hne) as Hpos.
  assert (Hle : (size (pgs_ids d ∩ bim_ids bim) <= size (pgs_ids d))%nat).
  { apply subseteq_size, intersection_subseteq_l. }
  destruct (percent_range _ _ Hle Hpos) as [H0 H100].
  split; [done |]. split; [done |].
  rewrite percent_full by done.
  rewrite size_intersection_full. apply pgs_ids_subseteq.
Qed.

(** The scoring pipeline divides a set size by a row count: its coverage is
    in [[0, 100]], and is 100 exactly when every entry has its canonical
    identifier in the panel and no identifier is listed twice. *)
Lemma calculator_coverage_spec snps d :
  rows d <> [] ->
  (0 <= coverage snps d)%Q /\
  (coverage snps d <= 100)%Q /\
  ((coverage snps d == 100)%Q <->
   NoDup (rsID <$> rows d) /\
   forall row, row ∈ rows d -> rsID row ∈ snps).
Proof.
  intros Hne. unfold coverage, common_snps.
  assert (Hpos : (0 < length (rows d))%nat).
  { destruct (rows d); [done | simpl; lia]. }
  assert (H1 : (size (pgs_ids d ∩ snps) <= size (pgs_ids d))%nat).
  { apply subseteq_size, intersection_subseteq_l. }
  assert (H2 : (size (pgs_ids d) <= length (rows d))%nat).
  { unfold pgs_ids. etrans; [apply size_list_to_set_le |].
    by rewrite length_map. }
  destruct (percent_range (size (pgs_ids d ∩ snps)) (length (rows d)))
    as [H0 H100]; [lia | done |].
  split; [done |]. split; [done |].
  rewrite percent_full by done.
  rewrite <- pgs_ids_subseteq, <- size_intersection_full.
  rewrite <- size_list_to_set_full.
  change (list_to_set (rsID <$> rows d)) with (pgs_ids d).
  rewrite length_fmap. lia.
Qed.

(** C3.  A scoring file that lists the panel variant [rs1] in both of its
    rows: every entry resolves to an identifier of the panel, and the
    scoring pipeline reports a coverage of 50, one matched identifier over
    two rows; the extraction pipeline, which divides by the number of
    distinct identifiers, reports 100 on the same file. *)
Theorem coverage_of_repeated_variant :
  (forall row, row ∈ rows Examples.twice_normalized ->
               rsID row ∈ bim_ids Examples.panel) /\
  (coverage (bim_ids Examples.panel) Examples.twice_normalized == 50)%Q /\
  (SnpExtractor.coverage Examples.panel Examples.twice_normalized == 100)%Q.
Proof.
  split; [| split].
  - intros row Hrow.
    apply elem_of_cons in Hrow as [-> | Hrow]; [by_evaluation |].
    apply list_elem_of_singleton in Hrow as ->. by_evaluation.
  - by vm_compute.
  - by vm_compute.
Qed.

(** ** The loop over the scoring files *)

Section Loop.

Variable plink_score : list WeightRow -> option (list ProfileRow).
Variable snps : gset cell.
Variable pos_dict : gmap string cell.

Lemma process_file_failure st f e :
  score_definition plink_score snps pos_dict (snd f) = inl e ->
  process_file plink_score snps pos_dict st f = st.
Proof. intros H. unfold process_file. by rewrite H. Qed.

Lemma process_files_cons st f files :
  process_files plink_score snps pos_dict st (f :: files)
  = process_files plink_score snps pos_dict
      (process_file plink_score snps pos_dict st f) files.
Proof. reflexivity. Qed.

Lemma process_files_app st l1 l2 :
  process_files plink_score snps pos_dict st (l1 ++ l2)
  = process_files plink_score snps pos_dict
      (process_files plink_score snps pos_dict st l1) l2.
Proof. apply fold_left_app. Qed.

Lemma process_files_skip st l1 f l2 e :
  score_definition plink_score snps pos_dict (snd f) = inl e ->
  process_files plink_score snps pos_dict st (l1 ++ f :: l2)
  = process_files plink_score snps pos_dict st (l1 ++ l2).
Proof.
  intros H. rewrite !process_files_app, process_files_cons.
  by rewrite (process_file_failure _ _ e).
Qed.

(** The list handed to the aggregation names the files that were scored, in
    the order of the loop. *)
Lemma process_files_profile_files st files :
  profile_files (process_files plink_score snps pos_dict st files)
  = profile_files st
    ++ omap (fun f =>
               match score_definition plink_score snps pos_dict (snd f) with
               | inr _ => Some (profile_path (pgs_name (fst f)))
               | inl _ => None
               end) files.
Proof.
  revert st. induction files as [|f files IH]; intros st.
  - simpl. by rewrite app_nil_r.
  - rewrite process_files_cons, IH. unfold process_file. simpl.
    destruct (score_definition plink_score snps pos_dict (snd f))
      as [e | table]; simpl; [done |].
    by rewrite <- app_assoc.
Qed.

Lemma process_files_all_fail st files :
  (forall f, f ∈ files ->
     exists e, score_definition plink_score snps pos_dict (snd f) = inl e) ->
  process_files plink_score snps pos_dict st files = st.
Proof.
  revert st. induction files as [|f files IH]; intros st Hall; [done |].
  rewrite process_files_cons.
  destruct (Hall f) as [e He]; [apply list_elem_of_here |].
  rewrite (process_file_failure _ _ e He).
  apply IH. intros f' Hf'. apply Hall. by apply list_elem_of_further.
Qed.


End Loop.

(** The score files the aggregation is handed: one per scored definition,
    in the order of the loop. *)
Lemma run_loop_profile_files plink_score bim scratch files :
  profile_files (run_loop plink_score bim scratch files)
  = omap (fun f =>
            match score_definition plink_score (bim_ids bim)
                    (build_pos_dict bim) (snd f) with
            | inr _ => Some (profile_path (pgs_name (fst f)))
            | inl _ => None
            end) files.
Proof. unfold run_loop. by rewrite process_files_profile_files. Qed.

(** The five ways in which a scoring file is skipped. *)
Example skip_unresolvable_scheme :
  score_definition Examples.count_scorer (bim_ids Examples.panel)
    (build_pos_dict Examples.panel) Examples.def_no_scheme
  = inl UnresolvableIdentifierScheme.
Proof. reflexivity. Qed.

Example skip_missing_columns :
  score_definition Examples.count_scorer (bim_ids Examples.panel)
    (build_pos_dict Examples.panel) Examples.def_no_weight
  = inl MissingRequiredColumns.
Proof. reflexivity. Qed.

Example skip_empty_definition :
  score_definition Examples.count_scorer (bim_ids Examples.panel)
    (build_pos_dict Examples.panel) Examples.def_empty
  = inl EmptyScoringDefinition.
Proof. reflexivity. Qed.

Example skip_no_overlap :
  score_definition Examples.count_scorer (bim_ids Examples.panel)
    (build_pos_dict Examples.panel) Examples.def_no_overlap
  = inl NoOverlap.
Proof. reflexivity. Qed.

Example skip_scorer_failure :
  score_definition Examples.failing_scorer (bim_ids Examples.panel)
    (build_pos_dict Examples.panel) Examples.def_A
  = inl ExternalScorerFailure.
Proof. reflexivity. Qed.

(** C6.  A scoring file that ends in any of the per-definition errors
    leaves the state of the loop as it was: its name is not added to the
    list of score tables and the scratch store is unchanged.  The loop goes
    on, and the run over the whole list of files is the run over the list
    without the failing file: same score tables, same result, same output. *)
Theorem failing_definition_is_skipped
    plink_score writable bim fam scratch out l1 f l2 e :
  score_definition plink_score (bim_ids bim) (build_pos_dict bim) (snd f)
    = inl e ->
  (forall st,
     process_file plink_score (bim_ids bim) (build_pos_dict bim) st f = st) /\
  (forall st,
     process_files plink_score (bim_ids bim) (build_pos_dict bim) st
       (l1 ++ f :: l2)
     = process_files plink_score (bim_ids bim) (build_pos_dict bim) st
         (l1 ++ l2)) /\
  calculate_pgs plink_score writable bim fam scratch (l1 ++ f :: l2) out
  = calculate_pgs plink_score writable bim fam scratch (l1 ++ l2) out.
Proof.
  intros He. split; [| split].
  - intros st. by apply (process_file_failure _ _ _ _ _ e).
  - intros st. by apply (process_files_skip _ _ _ _ _ _ _ e).
  - unfold calculate_pgs, run_loop.
    by rewrite (process_files_skip _ _ _ _ _ _ _ e He).
Qed.

Lemma failing_definition_is_skipped_witness :
  calculate_pgs Examples.count_scorer Examples.disk
    Examples.panel Examples.pedigree ∅
    ([("A.txt", Examples.def_A)] ++ ("N.txt", Examples.def_no_overlap)
       :: [("B.txt", Examples.def_B)]) Examples.out_path
  = calculate_pgs Examples.count_scorer Examples.disk
      Examples.panel Examples.pedigree ∅
      ([("A.txt", Examples.def_A)] ++ [("B.txt", Examples.def_B)])
      Examples.out_path.
Proof.
  exact (proj2 (proj2 (failing_definition_is_skipped
           Examples.count_scorer Examples.disk
           Examples.panel Examples.pedigree ∅
           Examples.out_path
           [("A.txt", Examples.def_A)] ("N.txt", Examples.def_no_overlap)
           [("B.txt", Examples.def_B)] NoOverlap eq_refl))).
Defined.

(** C7.  When every scoring file is skipped, no score table is listed and
    [calculate_pgs] returns [(None, None)] without writing the output file. *)
Theorem no_scorable_definition_gives_empty_result
    plink_score writable bim fam scratch files out :
  (forall f, f ∈ files ->
     exists e, score_definition plink_score (bim_ids bim) (build_pos_dict bim)
                 (snd f) = inl e) ->
  profile_files (run_loop plink_score bim scratch files) = [] /\
  calculate_pgs plink_score writable bim fam scratch files out = no_result /\
  returned (calculate_pgs plink_score writable bim fam scratch files out)
  = None /\
  output_csv (calculate_pgs plink_score writable bim fam scratch files out)
  = None.
Proof.
  intros Hall. unfold calculate_pgs, run_loop.
  rewrite process_files_all_fail by done. simpl. done.
Qed.

Lemma no_scorable_definition_gives_empty_result_witness :
  calculate_pgs Examples.count_scorer Examples.disk
    Examples.panel Examples.pedigree ∅
    [("N.txt", Examples.def_no_overlap); ("E.txt", Examples.def_empty)]
    Examples.out_path
  = no_result.
Proof.
  refine (proj1 (proj2 (no_scorable_definition_gives_empty_result
            Examples.count_scorer Examples.disk
            Examples.panel Examples.pedigree ∅
            [("N.txt", Examples.def_no_overlap); ("E.txt", Examples.def_empty)]
            Examples.out_path _))).
  intros f Hf.
  apply elem_of_cons in Hf as [-> | Hf]; [by exists NoOverlap |].
  apply list_elem_of_singleton in Hf as ->. by exists EmptyScoringDefinition.
Defined.

(** ** ScoreAggregator: the score columns *)

Lemma get_col_set_col_eq name vals cols :
  get_col name (set_col name vals cols) = Some vals.
Proof.
  induction cols as [|[n v] cols IH]; simpl.
  - by rewrite bool_decide_eq_true_2.
  - destruct (bool_decide (n = name)) eqn:E; simpl; rewrite E;
      [done | apply IH].
Qed.

Lemma get_col_set_col_ne name name' vals cols :
  name <> name' ->
  get_col name' (set_col name vals cols) = get_col name' cols.
Proof.
  intros Hne. induction cols as [|[n v] cols IH]; simpl.
  - by rewrite bool_decide_eq_false_2.
  - destruct (bool_decide (n = name)) eqn:E; simpl.
    + apply bool_decide_eq_true in E as ->.
      by rewrite bool_decide_eq_false_2.
    + by rewrite IH.
Qed.

(** An assignment adds its name at the end unless the name is there. *)
Lemma set_col_names name vals cols :
  map fst (set_col name vals cols)
  = if bool_decide (name ∈ map fst cols) then map fst cols
    else map fst cols ++ [name].
Proof.
  induction cols as [|[n v] cols IH]; simpl; [done |].
  destruct (bool_decide (n = name)) eqn:E; simpl.
  - apply bool_decide_eq_true in E as ->.
    rewrite bool_decide_eq_true_2; [done | apply list_elem_of_here].
  - apply bool_decide_eq_false in E. rewrite IH.
    destruct (bool_decide (name ∈ map fst cols)) eqn:E'.
    + apply bool_decide_eq_true in E'.
      rewrite bool_decide_eq_true_2; [done | by apply list_elem_of_further].
    + apply bool_decide_eq_false in E'.
      rewrite bool_decide_eq_false_2; [done |].
      intros Hin. apply elem_of_cons in Hin as [-> | Hin]; done.
Qed.

Lemma set_col_names_elem name vals cols c :
  c ∈ map fst (set_col name vals cols) <-> c = name \/ c ∈ map fst cols.
Proof.
  rewrite set_col_names.
  destruct (bool_decide (name ∈ map fst cols)) eqn:E.
  - apply bool_decide_eq_true in E. split; [by right | intros [-> | H]; done].
  - rewrite elem_of_app, list_elem_of_singleton. tauto.
Qed.

Lemma align_length n col : length (align n col) = n.
Proof. unfold align. by rewrite length_map, length_seq. Qed.

(** Row [i] of an assigned column is row [i] of the assigned series. *)
Lemma align_lookup n col i :
  (i < n)%nat -> align n col !! i = Some (default None (col !! i)).
Proof.
  intros Hi. unfold align.
  change (map ?f ?l) with (f <$> l).
  rewrite list_lookup_fmap, lookup_seq_lt by done. done.
Qed.

Section AddScores.

Variable st : gmap string (list ProfileRow).

Lemma add_scores_app c l1 l2 :
  add_scores st c (l1 ++ l2) = c' ← add_scores st c l1; add_scores st c' l2.
Proof.
  revert c. induction l1 as [|f l1 IH]; intros c; simpl; [done |].
  destruct (add_score st c f) as [c'|]; simpl; [apply IH | done].
Qed.

(** The loop fails only on a file it cannot read, and never changes the keys. *)
Lemma add_scores_total c files :
  (forall f, f ∈ files -> is_Some (st !! f)) ->
  exists c', add_scores st c files = Some c' /\ keys c' = keys c.
Proof.
  revert c. induction files as [|f files IH]; intros c Hall; simpl.
  - by exists c.
  - destruct (Hall f) as [df Hdf]; [apply list_elem_of_here |].
    unfold add_score. rewrite Hdf. simpl.
    destruct (IH {| keys := keys c;
                    score_cols := set_col (column_name f)
                      (align (length (keys c)) (map SCORE df)) (score_cols c) |})
      as (c' & Hc' & Hk).
    { intros f' Hf'. apply Hall. by apply list_elem_of_further. }
    exists c'. split; [done | by rewrite Hk].
Qed.

Lemma add_scores_keys c files c' :
  add_scores st c files = Some c' -> keys c' = keys c.
Proof.
  revert c. induction files as [|f files IH]; intros c H; simpl in H.
  - by injection H as <-.
  - unfold add_score in H. destruct (st !! f) as [df|]; [| done]. simpl in H.
    by apply IH in H.
Qed.

Lemma add_scores_readable c files c' :
  add_scores st c files = Some c' -> forall f, f ∈ files -> is_Some (st !! f).
Proof.
  revert c. induction files as [|f files IH]; intros c H f' Hf'.
  - by apply elem_of_nil in Hf'.
  - simpl in H. unfold add_score in H.
    destruct (st !! f) as [df|] eqn:E; [| done]. simpl in H.
    apply elem_of_cons in Hf' as [-> | Hf']; [by rewrite E | by eapply IH].
Qed.

(** The names of the columns after the loop. *)
Lemma add_scores_names_elem c files c' name :
  add_scores st c files = Some c' ->
  name ∈ map fst (score_cols c') <->
  name ∈ map fst (score_cols c) \/ name ∈ map column_name files.
Proof.
  revert c. induction files as [|f files IH]; intros c H; simpl in H.
  - injection H as <-. simpl. rewrite elem_of_nil. tauto.
  - unfold add_score in H. destruct (st !! f) as [df|]; [| done]. simpl in H.
    apply IH in H. rewrite H. simpl.
    rewrite set_col_names_elem, elem_of_cons. tauto.
Qed.

(** With pairwise distinct new names the columns are appended in the order
    of the list. *)
Lemma add_scores_names_NoDup c files c' :
  add_scores st c files = Some c' ->
  NoDup (map fst (score_cols c) ++ map column_name files) ->
  map fst (score_cols c') = map fst (score_cols c) ++ map column_name files.
Proof.
  revert c. induction files as [|f files IH]; intros c H Hnd; simpl in H.
  - injection H as <-. simpl. by rewrite app_nil_r.
  - unfold add_score in H. destruct (st !! f) as [df|]; [| done]. simpl in H.
    simpl in Hnd. apply NoDup_app in Hnd as (Hnd1 & Hdisj & Hnd2).
    apply NoDup_cons in Hnd2 as [Hf Hnd2].
    assert (Hfresh : column_name f ∉ map fst (score_cols c)).
    { intros Hin. apply (Hdisj _ Hin), list_elem_of_here. }
    apply IH in H; simpl in H.
    + rewrite H, set_col_names, bool_decide_eq_false_2 by done.
      by rewrite <- app_assoc.
    + simpl. rewrite set_col_names, bool_decide_eq_false_2 by done.
      rewrite <- app_assoc. simpl. apply NoDup_app. split; [done |].
      split; [| by apply NoDup_cons].
      intros x Hx. by apply Hdisj.
Qed.

(** The column of a file is the positional image of its own table, unless a
    later file of the list writes the same column. *)
Lemma add_scores_column c l1 f l2 df c' :
  add_scores st c (l1 ++ f :: l2) = Some c' ->
  st !! f = Some df ->
  column_name f ∉ map column_name l2 ->
  get_col (column_name f) (score_cols c')
  = Some (align (length (keys c)) (map SCORE df)).
Proof.
  intros H Hdf Hlast. rewrite add_scores_app in H.
  destruct (add_scores st c l1) as [c1|] eqn:E1; [| done]. simpl in H.
  apply add_scores_keys in E1.
  unfold add_score in H. rewrite Hdf in H. simpl in H. rewrite E1 in H.
  remember {| keys := keys c;
              score_cols := set_col (column_name f)
                (align (length (keys c)) (map SCORE df)) (score_cols c1) |}
    as c2 eqn:Hc2.
  assert (Hget : get_col (column_name f) (score_cols c2)
                 = Some (align (length (keys c)) (map SCORE df))).
  { rewrite Hc2. simpl. apply get_col_set_col_eq. }
  clear Hc2 E1 c1 Hdf. revert c2 H Hget Hlast.
  induction l2 as [|g l2 IH]; intros c2 H Hget Hlast; simpl in H.
  - by injection H as <-.
  - unfold add_score in H. destruct (st !! g) as [dg|]; [| done]. simpl in H.
    simpl in Hlast. apply not_elem_of_cons in Hlast as [Hne Hlast].
    eapply IH; [exact H | | exact Hlast]. simpl.
    rewrite get_col_set_col_ne by done. exact Hget.
Qed.

End AddScores.

Lemma join_phenotype_names fam c ds :
  join_phenotype fam c = Some ds -> map fst (ds_X ds) = map fst (score_cols c).
Proof.
  unfold join_phenotype.
  destruct (bool_decide ("PHENOTYPE" ∈ map fst (score_cols c))); [done |].
  intros H. injection H as <-. simpl.
  rewrite map_map. done.
Qed.

Lemma join_phenotype_total fam c :
  "PHENOTYPE" ∉ map fst (score_cols c) -> is_Some (join_phenotype fam c).
Proof.
  intros H. unfold join_phenotype. rewrite bool_decide_eq_false_2 by done.
  by eexists.
Qed.


(** C1 (as the code has it).  The key columns of the aggregate are those of
    the table stored under the first listed score file.  Every listed score
    file, the first included, has its [SCORE] column assigned by row
    position to the column named after it, so that a column holds the
    scores of the last listed file of its name: for a file which no later
    listed file shares its column name with, row [i] of the column is row
    [i] of that file's own table, and null where the table is shorter.  No
    SampleKey of a later table is compared with the base: whenever the
    files can be read the aggregation succeeds, and the column named after
    each file is in the final dataset (unless a column is called
    [PHENOTYPE], which ends the aggregation as a whole).  Names that would
    overwrite a key column are outside the embedding. *)
Theorem score_columns_are_attached_by_position st first rest base fam :
  st !! first = Some base ->
  (forall f, f ∈ rest -> is_Some (st !! f)) ->
  "FID" ∉ map column_name (first :: rest) ->
  "IID" ∉ map column_name (first :: rest) ->
  exists c,
    combine_scores st (first :: rest) = Some c /\
    keys c = map profile_key base /\
    (forall l1 f l2 df,
       first :: rest = l1 ++ f :: l2 ->
       st !! f = Some df ->
       column_name f ∉ map column_name l2 ->
       exists vals,
         get_col (column_name f) (score_cols c) = Some vals /\
         length vals = length base /\
         forall i, (i < length base)%nat ->
           vals !! i = Some (default None (SCORE <$> df !! i))) /\
    (forall f, f ∈ first :: rest -> column_name f ∈ map fst (score_cols c)) /\
    ("PHENOTYPE" ∉ map column_name (first :: rest) ->
     exists ds, aggregate st (first :: rest) fam = Some ds /\
                map fst (ds_X ds) = map fst (score_cols c)).
Proof.
  intros Hbase Hrest _ _.
  assert (Hall : forall f, f ∈ first :: rest -> is_Some (st !! f)).
  { intros f Hf. apply elem_of_cons in Hf as [-> | Hf]; [by eexists | auto]. }
  destruct (add_scores_total st
              {| keys := map profile_key base; score_cols := [] |}
              (first :: rest) Hall) as (c & Hc & Hk).
  simpl in Hk.
  assert (Hcomb : combine_scores st (first :: rest) = Some c).
  { unfold combine_scores. rewrite Hbase. exact Hc. }
  assert (Hnames : forall name,
            name ∈ map fst (score_cols c) <->
            name ∈ map column_name (first :: rest)).
  { intros name. rewrite (add_scores_names_elem _ _ _ _ name Hc). simpl.
    rewrite elem_of_nil. tauto. }
  exists c. split; [done |]. split; [done |]. split; [| split].
  - intros l1 f l2 df Hsplit Hdf Hlast.
    rewrite Hsplit in Hc.
    pose proof (add_scores_column _ _ _ _ _ _ _ Hc Hdf Hlast) as Hcol.
    simpl in Hcol. rewrite length_map in Hcol.
    eexists. split; [exact Hcol |]. split; [apply align_length |].
    intros i Hi. rewrite align_lookup by done.
    change (map SCORE df) with (SCORE <$> df).
    by rewrite list_lookup_fmap.
  - intros f Hf. apply Hnames.
    change (map column_name (first :: rest))
      with (column_name <$> (first :: rest)).
    by apply list_elem_of_fmap_2.
  - intros Hph.
    destruct (join_phenotype_total fam c) as [ds Hds].
    { by rewrite Hnames. }
    exists ds. split; [| by eapply join_phenotype_names].
    unfold aggregate. rewrite Hcomb. exact Hds.
Qed.

(** Two listed files can share a column name: [a.txt] and [a.profile.txt]
    are scored into [a.profile] and [a.profile.profile], both of which give
    the column [a].  The column holds the scores of the later one. *)
Example later_table_of_the_same_name_overwrites :
  score_cols
    <$> combine_scores
          {[ "b.profile" := Examples.table_F1;
             "a.profile" := Examples.table_F9;
             "a.profile.profile" := Examples.table_F1 ]}
          ["b.profile"; "a.profile"; "a.profile.profile"]
  = Some [("b", [Some 0.5%Q]); ("a", [Some 0.5%Q])].
Proof. vm_compute. reflexivity. Qed.

Lemma score_columns_are_attached_by_position_witness :
  exists c,
    combine_scores
      {[ "A.profile" := Examples.table_F1; "B.profile" := Examples.table_F9 ]}
      ["A.profile"; "B.profile"] = Some c /\
    keys c = [("F1", "I1")] /\
    get_col "B" (score_cols c) = Some [Some 0.7%Q].
Proof.
  destruct (score_columns_are_attached_by_position
              {[ "A.profile" := Examples.table_F1;
                 "B.profile" := Examples.table_F9 ]}
              "A.profile" ["B.profile"] Examples.table_F1 Examples.pedigree)
    as (c & Hc & Hk & _).
  - reflexivity.
  - intros f Hf. apply list_elem_of_singleton in Hf as ->. by eexists.
  - by_evaluation.
  - by_evaluation.
  - exists c. split; [exact Hc |]. split; [exact Hk |].
    vm_compute in Hc. injection Hc as <-. reflexivity.
Defined.

(** C1, the sentence of the specification.  The scorer returns the sample
    [(F1,I1)] for definition A and the sample [(F9,I9)], which the base
    table lacks, for definition B: the column of B is written all the same. *)
Lemma sample_key_mismatch_keeps_column :
  output_csv (calculate_pgs Examples.shifting_scorer Examples.disk
                Examples.panel Examples.pedigree ∅ Examples.scenario_files
                Examples.out_path)
  = Some {| ds_keys := [("F1", "I1")];
            ds_X := [("A", [Some 0.5%Q]); ("B", [Some 0.7%Q])];
            ds_y := [Some 1%Q] |} /\
  ~ Stated.mismatch_excludes_column
      (store Examples.mismatch_state) (profile_files Examples.mismatch_state)
      Examples.pedigree.
Proof.
  split; [reflexivity |].
  intros H.
  specialize (H "A.profile" ["B.profile"] Examples.table_F1 "B.profile"
                Examples.table_F9
                {| ds_keys := [("F1", "I1")];
                   ds_X := [("A", [Some 0.5%Q]); ("B", [Some 0.7%Q])];
                   ds_y := [Some 1%Q] |}
                eq_refl eq_refl).
  apply H.
  - apply list_elem_of_here.
  - reflexivity.
  - exists ("F9", "I9"). split; [apply list_elem_of_here |].
    simpl. intros Hin. apply list_elem_of_singleton in Hin. discriminate.
  - reflexivity.
  - simpl. apply list_elem_of_further, list_elem_of_here.
Qed.

(** ** ScoreAggregator: the phenotype join *)
















(** What a written dataset was computed from. *)
Lemma calculate_pgs_written plink_score writable bim fam scratch files out ds :
  output_csv (calculate_pgs plink_score writable bim fam scratch files out)
  = Some ds ->
  exists first rest base c,
    profile_files (run_loop plink_score bim scratch files) = first :: rest /\
    store (run_loop plink_score bim scratch files) !! first = Some base /\
    add_scores (store (run_loop plink_score bim scratch files))
      {| keys := map profile_key base; score_cols := [] |} (first :: rest)
    = Some c /\
    join_phenotype fam c = Some ds /\
    returned (calculate_pgs plink_score writable bim fam scratch files out)
    = Some (ds_X ds, ds_y ds).
Proof.
  unfold calculate_pgs.
  destruct (profile_files (run_loop plink_score bim scratch files))
    as [|first rest] eqn:Hpf; [done |].
  destruct (aggregate _ _ fam) as [ds'|] eqn:Hagg; [| done].
  destruct (save_dataset writable out); [| done].
  simpl. intros [= ->].
  unfold aggregate in Hagg.
  destruct (combine_scores _ (first :: rest)) as [c|] eqn:Hc; [| done].
  change (join_phenotype fam c = Some ds) in Hagg.
  unfold combine_scores in Hc.
  destruct (store _ !! first) as [base|] eqn:Hbase; [| done].
  by exists first, rest, base, c.
Qed.





(** ** ScoreAggregator: the header of the dataset *)

Lemma remove_from_dotless old s :
  PyStr.dotless s = true ->
  PyStr.remove_from (String "." old) 0 s = s.
Proof.
  induction s as [|c s IH]; [done |].
  cbn [PyStr.dotless PyStr.remove_from String.prefix]. intros H.
  apply andb_prop in H as [Hc Hs].
  destruct (ascii_dec "." c) as [<- | _]; [by compute in Hc |].
  by rewrite IH.
Qed.

Lemma remove_suffix_dotless old s :
  PyStr.dotless s = true ->
  PyStr.remove_all (String "." old) (String "." old) = ""%string ->
  PyStr.remove_all (String "." old) (s +:+ String "." old) = s.
Proof.
  intros Hs Hold. unfold PyStr.remove_all in *.
  induction s as [|c s IH]; [exact Hold |].
  cbn [PyStr.dotless] in Hs. apply andb_prop in Hs as [Hc Hs].
  change (String c s +:+ String "." old) with (String c (s +:+ String "." old)).
  cbn [PyStr.remove_from String.prefix].
  destruct (ascii_dec "." c) as [<- | _]; [by compute in Hc |].
  by rewrite IH.
Qed.

(** A file [n.txt] whose stem [n] has no full stop gives the column [n]. *)
Lemma plain_file_column n :
  PyStr.dotless n = true ->
  pgs_name (n +:+ ".txt") = n /\
  column_name (profile_path (pgs_name (n +:+ ".txt"))) = n.
Proof.
  intros Hn.
  assert (H1 : pgs_name (n +:+ ".txt") = n).
  { unfold pgs_name. by apply (remove_suffix_dotless "txt"). }
  split; [done |]. rewrite H1. unfold column_name, profile_path.
  by apply (remove_suffix_dotless "profile").
Qed.

(** With pairwise distinct column names the header reads [FID], [IID], one
    name per listed score file in the order of the loop, [y]. *)
Lemma header_in_processing_order
    plink_score writable bim fam scratch files out ds :
  output_csv (calculate_pgs plink_score writable bim fam scratch files out)
  = Some ds ->
  NoDup (map column_name
           (profile_files (run_loop plink_score bim scratch files))) ->
  header ds
  = "FID" :: "IID"
    :: map column_name (profile_files (run_loop plink_score bim scratch files))
    ++ ["y"].
Proof.
  intros Hout Hnd.
  apply calculate_pgs_written in Hout
    as (first & rest & base & c & Hpf & _ & Hc & Hjoin & _).
  unfold header. rewrite (join_phenotype_names _ _ _ Hjoin).
  rewrite (add_scores_names_NoDup _ _ _ _ Hc); rewrite Hpf in *; done.
Qed.

Example scenario_header :
  header <$> output_csv (calculate_pgs Examples.count_scorer Examples.disk
                           Examples.panel Examples.pedigree ∅
                           Examples.scenario_files Examples.out_path)
  = Some ["FID"; "IID"; "A"; "B"; "y"].
Proof. vm_compute. reflexivity. Qed.

(** C9.  The folder holds [a.txt] and [a.txt.txt].  Removing every [.txt]
    gives both files the name [a]; both are scored, the second score table
    replaces the first in the scratch directory, the list names
    [a.profile] twice, and the dataset has one score column for two scored
    definitions. *)
Theorem colliding_file_names_share_one_column :
  NoDup (map fst Examples.colliding_files) /\
  map (fun f => pgs_name (fst f)) Examples.colliding_files = ["a"; "a"] /\
  profile_files (run_loop Examples.count_scorer Examples.panel ∅
                   Examples.colliding_files)
  = ["a.profile"; "a.profile"] /\
  header <$> output_csv (calculate_pgs Examples.count_scorer Examples.disk
                           Examples.panel Examples.pedigree ∅
                           Examples.colliding_files Examples.out_path)
  = Some ["FID"; "IID"; "a"; "y"].
Proof.
  split; [by_evaluation |]. split; [reflexivity |].
  split; vm_compute; reflexivity.
Qed.

(** ** The phenotype column and the label vector *)


Section Labels.

Import SnpExtractor.




End Labels.

(** The extraction pipeline never reaches its label vector: the first
    sub-process call raises, and whatever the scoring file, the panel and
    the sub-processes, the function returns [(None, None)]. *)
Lemma extraction_returns_nothing
    Bed plink_extract plink_recode pgs_data bim fam :
  SnpExtractor.extract_pgs_snps_to_dataset Bed plink_extract plink_recode
    pgs_data bim fam = None.
Proof.
  unfold SnpExtractor.extract_pgs_snps_to_dataset.
  destruct (negb (is_rsid_based pgs_data) && negb (is_position_based pgs_data));
    [done |].
  by destruct (size (pgs_ids (normalize (build_pos_dict bim) pgs_data))).
Qed.

(** C8.  On definition A of the scenario the extraction pipeline returns
    [(None, None)]: its sub-process call raises before any label is
    computed, so no sample row is kept.  The lines that build the label
    vector join on the string [FID_IID]: for a dosage row [(a_b, c)] and a
    pedigree whose only sample is [(a, b_c)] with phenotype 2, no pedigree
    row has the SampleKey of the dosage row, both give [a_b_c], and the
    label is 2 where a join on the SampleKey leaves it null. *)
Theorem underscore_identifiers_share_a_label :
  SnpExtractor.extract_pgs_snps_to_dataset unit Examples.extract_ok
    Examples.recode_ok Examples.def_A Examples.panel Examples.pedigree = None /\
  (forall p, p ∈ Examples.pedigree_underscore -> fam_key p <> ("a_b", "c")) /\
  SnpExtractor.labels Examples.pedigree_underscore Examples.genotypes_underscore
  = [Some 2%Q] /\
  ~ Stated.unmatched_label_is_null Examples.pedigree_underscore
      Examples.genotypes_underscore.
Proof.
  split; [vm_compute; reflexivity |].
  assert (Hkeys : forall p, p ∈ Examples.pedigree_underscore ->
                            fam_key p <> ("a_b", "c")).
  { intros p Hp. apply list_elem_of_singleton in Hp as ->. discriminate. }
  split; [exact Hkeys |]. split; [vm_compute; reflexivity |].
  intros H.
  specialize (H 0%nat _ eq_refl Hkeys). vm_compute in H. discriminate H.
Qed.

(** ** When the dataset is written *)


(** With an output path that names no directory the scored scenario ends in
    [(None, None)]: [os.makedirs('')] raises after the aggregation. *)
Example path_without_directory_writes_nothing :
  calculate_pgs Examples.count_scorer Examples.disk Examples.panel
    Examples.pedigree ∅ Examples.scenario_files "pgs_dataset.csv"
  = no_result.
Proof. vm_compute. reflexivity. Qed.

(** With an output path that names a directory the scored scenario ends in
    [(None, None)] too: the directory is made and [to_csv] cannot open it. *)
Example path_of_a_directory_writes_nothing :
  calculate_pgs Examples.count_scorer Examples.disk Examples.panel
    Examples.pedigree ∅ Examples.scenario_files "results/"
  = no_result.
Proof. vm_compute. reflexivity. Qed.

(** * Further properties of the two pipelines *)

(** ** The position index *)

Lemma pos_dict_fold_other bim (m : gmap string cell) x :
  (forall b, b ∈ bim -> pos_id_of (bim_chr b) (bim_pos b) <> x) ->
  fold_left pos_dict_put bim m !! x = m !! x.
Proof.
  revert m. induction bim as [|b bim IH]; intros m Hno; [done |].
  simpl. rewrite IH.
  - unfold pos_dict_put. apply lookup_insert_ne, Hno, list_elem_of_here.
  - intros b' Hb'. by apply Hno, list_elem_of_further.
Qed.

(** X1.  When the panel lists a locus more than once, the position index
    holds the identifier of the last row of that locus. *)
Theorem position_index_keeps_last_row l1 b l2 :
  (forall b', b' ∈ l2 ->
     pos_id_of (bim_chr b') (bim_pos b') <> pos_id_of (bim_chr b) (bim_pos b)) ->
  build_pos_dict (l1 ++ b :: l2) !! pos_id_of (bim_chr b) (bim_pos b)
  = Some (bim_rsID b).
Proof.
  intros Hlast. unfold build_pos_dict. rewrite fold_left_app. simpl.
  rewrite pos_dict_fold_other by done.
  unfold pos_dict_put at 1. apply lookup_insert_eq.
Qed.

Lemma position_index_keeps_last_row_witness :
  build_pos_dict MoreExamples.panel_relisted !! "chr1:100"
  = Some (Some "rs_new").
Proof.
  refine (position_index_keeps_last_row
            [ mkBim "1" (Some "rs_old") "0" "100" "A" "G";
              mkBim "2" (Some "rs3") "0" "300" "A" "C" ]
            (mkBim "1" (Some "rs_new") "0" "100" "A" "G") [] _).
  intros b' Hb'. by apply elem_of_nil in Hb'.
Defined.

(** X2.  A locus is absent from the position index exactly when no row of
    the panel has it, and every identifier the index returns is an
    identifier of the panel's variant set. *)
Theorem position_index_domain_and_range bim x :
  (build_pos_dict bim !! x = None <->
   forall b, b ∈ bim -> pos_id_of (bim_chr b) (bim_pos b) <> x) /\
  (forall id, build_pos_dict bim !! x = Some id -> id ∈ bim_ids bim).
Proof.
  split.
  - split; [apply build_pos_dict_None |].
    intros Hno. unfold build_pos_dict.
    rewrite pos_dict_fold_other by done. apply lookup_empty.
  - intros id Hid. apply build_pos_dict_Some in Hid as (b & Hb & _ & <-).
    unfold bim_ids. apply elem_of_list_to_set.
    by apply (list_elem_of_fmap_2 bim_rsID).
Qed.

(** ** The normalisation *)

Lemma add_col_elem c c' cols : c ∈ add_col c' cols <-> c = c' \/ c ∈ cols.
Proof.
  unfold add_col. destruct (bool_decide (c' ∈ cols)) eqn:E.
  - apply bool_decide_eq_true in E. split; [by right | intros [-> | H]; done].
  - rewrite elem_of_app, list_elem_of_singleton. tauto.
Qed.

(** X3.  Normalising twice is normalising once, whatever the second index:
    once the synthesized [rsID] column is there, the file counts as
    rsID-based and is left alone. *)
Theorem normalize_is_idempotent pos_dict pos_dict' d :
  normalize pos_dict' (normalize pos_dict d) = normalize pos_dict d.
Proof.
  unfold normalize at 2 3.
  destruct (negb (is_rsid_based d) && is_position_based d) eqn:E.
  - apply normalize_rsid_based. unfold is_rsid_based, has_col. simpl.
    apply bool_decide_eq_true. apply add_col_elem. right.
    apply add_col_elem. by left.
  - unfold normalize. by rewrite E.
Qed.

(** X4.  The normalisation keeps the rows in number and order and touches
    neither the alleles, the weights nor the positions; it removes no
    column of the header. *)
Theorem normalize_keeps_the_other_columns pos_dict d :
  length (rows (normalize pos_dict d)) = length (rows d) /\
  map effect_allele (rows (normalize pos_dict d)) = map effect_allele (rows d) /\
  map effect_weight (rows (normalize pos_dict d)) = map effect_weight (rows d) /\
  map chr_name (rows (normalize pos_dict d)) = map chr_name (rows d) /\
  map chr_position (rows (normalize pos_dict d))
  = map chr_position (rows d) /\
  (forall c, c ∈ columns d -> c ∈ columns (normalize pos_dict d)).
Proof.
  split; [apply normalize_length |]. unfold normalize.
  destruct (negb (is_rsid_based d) && is_position_based d); [| done].
  simpl. rewrite !map_map. simpl.
  repeat split; try done.
  intros c Hc. apply add_col_elem. right. apply add_col_elem. by right.
Qed.

(** ** The checks on a scoring file *)

Lemma scheme_check d :
  negb (is_rsid_based d) && negb (is_position_based d) = false <->
  "rsID" ∈ columns d \/ ("chr_name" ∈ columns d /\ "chr_position" ∈ columns d).
Proof.
  unfold is_rsid_based, is_position_based, has_col.
  destruct (decide ("rsID" ∈ columns d)) as [H1 | H1];
    destruct (decide ("chr_name" ∈ columns d)) as [H2 | H2];
    destruct (decide ("chr_position" ∈ columns d)) as [H3 | H3];
    rewrite ?(bool_decide_eq_true_2 _ H1), ?(bool_decide_eq_false_2 _ H1),
      ?(bool_decide_eq_true_2 _ H2), ?(bool_decide_eq_false_2 _ H2),
      ?(bool_decide_eq_true_2 _ H3), ?(bool_decide_eq_false_2 _ H3);
    simpl; split; try done; tauto.
Qed.

Lemma missing_columns_nil d :
  missing_columns d = [] <->
  "effect_allele" ∈ columns d /\ "effect_weight" ∈ columns d.
Proof.
  unfold missing_columns, required_base_columns.
  rewrite !filter_cons, filter_nil.
  destruct (decide ("effect_allele" ∉ columns d)) as [H1 | H1];
    destruct (decide ("effect_weight" ∉ columns d)) as [H2 | H2];
    split; try done; try tauto.
  intros _. split; by apply dec_stable.
Qed.

Lemma common_snps_empty snps d :
  size (common_snps snps d) = 0%nat <->
  forall row, row ∈ rows d -> rsID row ∉ snps.
Proof.
  rewrite size_empty_iff. unfold common_snps, pgs_ids. split.
  - intros Hempty row Hrow Hin.
    apply (not_elem_of_empty (C:=gset cell) (rsID row)). rewrite <- Hempty.
    apply elem_of_intersection. split; [| done].
    apply elem_of_list_to_set. by apply (list_elem_of_fmap_2 rsID).
  - intros Hno id. split; [| by intros H%not_elem_of_empty].
    intros [Hid Hsn]%elem_of_intersection.
    apply elem_of_list_to_set in Hid.
    apply list_elem_of_fmap in Hid as (row & -> & Hrow). by apply Hno in Hrow.
Qed.

(** The five ways through the checks, with what each one requires. *)
Lemma prepare_weights_cases snps pos_dict d :
  let scheme := "rsID" ∈ columns d \/
                ("chr_name" ∈ columns d /\ "chr_position" ∈ columns d) in
  let weights := "effect_allele" ∈ columns d /\ "effect_weight" ∈ columns d in
  let d' := normalize pos_dict d in
  (~ scheme /\
   prepare_weights snps pos_dict d = inl UnresolvableIdentifierScheme) \/
  (scheme /\ ~ weights /\
   prepare_weights snps pos_dict d = inl MissingRequiredColumns) \/
  (scheme /\ weights /\ rows d = [] /\
   prepare_weights snps pos_dict d = inl EmptyScoringDefinition) \/
  (scheme /\ weights /\ rows d <> [] /\
   (forall row, row ∈ rows d' -> rsID row ∉ snps) /\
   prepare_weights snps pos_dict d = inl NoOverlap) \/
  (scheme /\ weights /\ rows d <> [] /\
   (exists row, row ∈ rows d' /\ rsID row ∈ snps) /\
   prepare_weights snps pos_dict d
   = inr (weight_table (common_snps snps d') d')).
Proof.
  intros scheme weights d'. unfold prepare_weights.
  destruct (negb (is_rsid_based d) && negb (is_position_based d)) eqn:Es.
  { left. split; [| done]. intros H. apply scheme_check in H. congruence. }
  apply scheme_check in Es. right.
  destruct (missing_columns d) as [|c cs] eqn:Em.
  2:{ left. split; [done |]. split; [| done].
      intros H. apply missing_columns_nil in H. congruence. }
  apply missing_columns_nil in Em. right.
  pose proof (normalize_length pos_dict d) as Hlen. fold d' in Hlen |- *.
  destruct (length (rows d')) as [|n] eqn:En.
  { left. split; [done |]. split; [done |]. split; [| done].
    destruct (rows d); [done | simpl in Hlen; lia]. }
  right.
  assert (Hne : rows d <> []).
  { intros Hnil. rewrite Hnil in Hlen. simpl in Hlen. lia. }
  destruct (size (common_snps snps d') =? 0)%nat eqn:Ez.
  - apply Nat.eqb_eq in Ez. left. repeat (split; [done |]).
    split; [| done]. by apply common_snps_empty.
  - apply Nat.eqb_neq in Ez. right. repeat (split; [done |]).
    split; [| done].
    destruct (decide (Exists (fun row => rsID row ∈ snps) (rows d')))
      as [Hex | Hex].
    + apply Exists_exists in Hex as (row & Hrow & Hin). by exists row.
    + exfalso. apply Ez, common_snps_empty. intros row Hrow Hin.
      apply Hex, Exists_exists. by exists row.
Qed.

(** X5.  A scoring file reaches the scorer exactly when its header has an
    identifier scheme ([rsID], or both position columns) and both weight
    columns, and at least one of its entries has its canonical identifier
    in the panel; the weight table is then the one built from the
    normalised file. *)
Theorem scoring_file_is_scored_iff snps pos_dict d :
  (exists wt, prepare_weights snps pos_dict d = inr wt) <->
  ("rsID" ∈ columns d \/
   ("chr_name" ∈ columns d /\ "chr_position" ∈ columns d)) /\
  ("effect_allele" ∈ columns d /\ "effect_weight" ∈ columns d) /\
  exists row, row ∈ rows (normalize pos_dict d) /\ rsID row ∈ snps.
Proof.
  destruct (prepare_weights_cases snps pos_dict d)
    as [(Hs & ->) | [(Hs & Hw & ->) | [(Hs & Hw & Hr & ->)
         | [(Hs & Hw & Hr & Hno & ->) | (Hs & Hw & Hr & Hex & ->)]]]].
  - split; [by intros [wt ?] | tauto].
  - split; [by intros [wt ?] | tauto].
  - split; [by intros [wt ?] |].
    intros (_ & _ & row & Hrow & _).
    pose proof (normalize_length pos_dict d) as Hlen.
    rewrite Hr in Hlen. destruct (rows (normalize pos_dict d)); [| done].
    by apply elem_of_nil in Hrow.
  - split; [by intros [wt ?] |].
    intros (_ & _ & row & Hrow & Hin). by apply Hno in Hrow.
  - split; [done | by eexists].
Qed.

(** X6.  The checks are made in a fixed order and the first one that fails
    names the reason: no identifier scheme, then a missing weight column,
    then a file without rows, then a file none of whose entries is in the
    panel.  Preparing the weights never ends in a scorer failure. *)
Theorem skip_reasons_in_order snps pos_dict d :
  let scheme := "rsID" ∈ columns d \/
                ("chr_name" ∈ columns d /\ "chr_position" ∈ columns d) in
  let weights := "effect_allele" ∈ columns d /\ "effect_weight" ∈ columns d in
  (prepare_weights snps pos_dict d = inl UnresolvableIdentifierScheme <->
   ~ scheme) /\
  (prepare_weights snps pos_dict d = inl MissingRequiredColumns <->
   scheme /\ ~ weights) /\
  (prepare_weights snps pos_dict d = inl EmptyScoringDefinition <->
   scheme /\ weights /\ rows d = []) /\
  (prepare_weights snps pos_dict d = inl NoOverlap <->
   scheme /\ weights /\ rows d <> [] /\
   forall row, row ∈ rows (normalize pos_dict d) -> rsID row ∉ snps) /\
  prepare_weights snps pos_dict d <> inl ExternalScorerFailure /\
  prepare_weights snps pos_dict d <> inl OtherException.
Proof.
  intros scheme weights.
  destruct (prepare_weights_cases snps pos_dict d)
    as [(Hs & ->) | [(Hs & Hw & ->) | [(Hs & Hw & Hr & ->)
         | [(Hs & Hw & Hr & Hno & ->) | (Hs & Hw & Hr & Hex & ->)]]]];
    subst scheme weights.
  - repeat split; try done; tauto.
  - repeat split; try done; tauto.
  - repeat split; try done; tauto.
  - repeat split; try done; tauto.
  - destruct Hex as (row & Hrow & Hin).
    repeat split; try done; try tauto.
    intros (_ & _ & _ & Hno). by apply Hno in Hrow.
Qed.

(** ** Cross-scheme matching and the weight table *)

(** X7.  In a position-based file with both weight columns, an entry whose
    locus is a locus of the panel is resolved to an identifier of the
    panel, the file reaches the scorer, and the entry is in the weight
    table under that identifier. *)
Theorem panel_locus_reaches_weight_table bim d row b :
  "rsID" ∉ columns d ->
  "chr_name" ∈ columns d ->
  "chr_position" ∈ columns d ->
  "effect_allele" ∈ columns d ->
  "effect_weight" ∈ columns d ->
  row ∈ rows d ->
  b ∈ bim ->
  pos_id_of (bim_chr b) (bim_pos b) = synth_id row ->
  exists wt id,
    prepare_weights (bim_ids bim) (build_pos_dict bim) d = inr wt /\
    build_pos_dict bim !! synth_id row = Some id /\
    id ∈ bim_ids bim /\
    mkWeight id (effect_allele row) (effect_weight row) ∈ wt.
Proof.
  intros Hrs Hc Hp Ha Hw Hrow Hb Hlocus.
  destruct (build_pos_dict bim !! synth_id row) as [id|] eqn:Eid.
  2:{ exfalso. eapply build_pos_dict_None in Eid; [| exact Hb]. done. }
  assert (Hid : id ∈ bim_ids bim).
  { apply build_pos_dict_Some in Eid as (b' & Hb' & _ & <-).
    unfold bim_ids. apply elem_of_list_to_set.
    by apply (list_elem_of_fmap_2 bim_rsID). }
  assert (Hrsid : is_rsid_based d = false).
  { unfold is_rsid_based, has_col. by apply bool_decide_eq_false. }
  assert (Hpos : is_position_based d = true).
  { unfold is_position_based, has_col.
    by rewrite !bool_decide_eq_true_2. }
  assert (Hres : resolve_row (build_pos_dict bim) row
                 ∈ rows (normalize (build_pos_dict bim) d)).
  { rewrite normalize_position_based by done.
    by apply (list_elem_of_fmap_2 (resolve_row (build_pos_dict bim))). }
  assert (Hcanon : rsID (resolve_row (build_pos_dict bim) row) = id).
  { simpl. unfold dict_get_self. by rewrite Eid. }
  destruct (prepare_weights_cases (bim_ids bim) (build_pos_dict bim) d)
    as [(Hs & _) | [(_ & Hnw & _) | [(_ & _ & Hr & _)
         | [(_ & _ & _ & Hno & _) | (_ & _ & _ & _ & Hpw)]]]].
  - exfalso. apply Hs. by right.
  - exfalso. by apply Hnw.
  - rewrite Hr in Hrow. by apply elem_of_nil in Hrow.
  - exfalso. apply (Hno _ Hres). by rewrite Hcanon.
  - eexists _, id. split; [exact Hpw |]. split; [done |]. split; [done |].
    unfold weight_table, filtered_pgs.
    change (map weight_row ?l) with (weight_row <$> l).
    apply list_elem_of_fmap.
    exists (resolve_row (build_pos_dict bim) row). split.
    + unfold weight_row. by rewrite Hcanon.
    + apply list_elem_of_filter. split; [| done].
      rewrite Hcanon. unfold common_snps, pgs_ids.
      apply elem_of_intersection. split; [| done].
      apply elem_of_list_to_set. rewrite <- Hcanon.
      by apply (list_elem_of_fmap_2 rsID).
Qed.

Lemma panel_locus_reaches_weight_table_witness :
  exists wt,
    prepare_weights (bim_ids Examples.panel) (build_pos_dict Examples.panel)
      MoreExamples.def_two_loci = inr wt /\
    mkWeight (Some "rs3") (Some "C") (Some "0.25") ∈ wt.
Proof.
  destruct (panel_locus_reaches_weight_table Examples.panel
              MoreExamples.def_two_loci
              (Examples.by_position "2" "300" "C" "0.25")
              (mkBim "2" (Some "rs3") "0" "300" "A" "C"))
    as (wt & id & Hwt & Hid & _ & Hin).
  - by_evaluation.
  - by_evaluation.
  - by_evaluation.
  - by_evaluation.
  - by_evaluation.
  - apply list_elem_of_further, list_elem_of_here.
  - do 2 apply list_elem_of_further. apply list_elem_of_here.
  - reflexivity.
  - exists wt. split; [exact Hwt |].
    vm_compute in Hid. injection Hid as <-. exact Hin.
Defined.

(** X8.  The scorer is never handed an empty weight table: a table that
    reaches it has a row for every matched identifier, hence at least as
    many rows as there are matched identifiers, and at least one. *)
Theorem weight_table_covers_the_matched_ids snps pos_dict d wt :
  prepare_weights snps pos_dict d = inr wt ->
  wt <> [] /\
  (forall id, id ∈ pgs_ids (normalize pos_dict d) ∩ snps ->
     exists w, w ∈ wt /\ w_SNP w = id) /\
  (size (pgs_ids (normalize pos_dict d) ∩ snps) <= length wt)%nat.
Proof.
  intros H. apply prepare_weights_inr in H as (-> & Hsize & _).
  set (d' := normalize pos_dict d) in *.
  assert (Hcover : forall id, id ∈ pgs_ids d' ∩ snps ->
            exists w, w ∈ weight_table (common_snps snps d') d' /\
                      w_SNP w = id).
  { intros id Hid. pose proof Hid as Hid'.
    apply elem_of_intersection in Hid as [Hid _]. unfold pgs_ids in Hid.
    apply elem_of_list_to_set in Hid.
    apply list_elem_of_fmap in Hid as (row & -> & Hrow).
    exists (weight_row row). split; [| done].
    unfold weight_table, filtered_pgs.
    apply (list_elem_of_fmap_2 weight_row).
    by apply list_elem_of_filter. }
  assert (Hle : (size (pgs_ids d' ∩ snps)
                 <= length (weight_table (common_snps snps d') d'))%nat).
  { rewrite <- (length_fmap w_SNP).
    etrans; [| apply size_list_to_set_le].
    apply subseteq_size. intros id Hid.
    destruct (Hcover id Hid) as (w & Hw & <-).
    apply elem_of_list_to_set. by apply (list_elem_of_fmap_2 w_SNP). }
  split; [| split; [exact Hcover | exact Hle]].
  intros Hnil. rewrite Hnil in Hle. simpl in Hle.
  unfold common_snps in Hsize. lia.
Qed.

Lemma weight_table_covers_the_matched_ids_witness :
  exists wt,
    prepare_weights (bim_ids Examples.panel) (build_pos_dict Examples.panel)
      Examples.def_twice = inr wt /\
    wt <> [].
Proof.
  eexists. split; [reflexivity |].
  exact (proj1 (weight_table_covers_the_matched_ids
                  (bim_ids Examples.panel) (build_pos_dict Examples.panel)
                  Examples.def_twice _ eq_refl)).
Defined.

(** ** The coverage figures *)

Section PercentOrder.

Local Open Scope Q_scope.

Lemma percent_pos (a b : nat) :
  (0 < a)%nat -> (0 < b)%nat -> 0 < percent a b.
Proof.
  intros Ha Hb. unfold percent.
  assert (Ha' : 0 < inject_Z (Z.of_nat a)).
  { change 0 with (inject_Z 0). rewrite <- Zlt_Qlt. lia. }
  assert (Hb' : 0 < inject_Z (Z.of_nat b)).
  { change 0 with (inject_Z 0). rewrite <- Zlt_Qlt. lia. }
  apply Qmult_lt_0_compat; [| by compute].
  apply Qlt_shift_div_l; [done |]. by rewrite Qmult_0_l.
Qed.

Lemma percent_zero (a b : nat) :
  (0 < b)%nat -> percent a b == 0 <-> a = 0%nat.
Proof.
  intros Hb. split.
  - intros H. destruct a as [|a]; [done |]. exfalso.
    assert (Hpos : 0 < percent (S a) b) by (apply percent_pos; lia).
    rewrite H in Hpos. by apply Qlt_irrefl in Hpos.
  - intros ->. unfold percent. simpl. unfold Qdiv.
    by rewrite !Qmult_0_l.
Qed.

Lemma percent_antitone (a b1 b2 : nat) :
  (0 < b2)%nat -> (b2 <= b1)%nat -> percent a b1 <= percent a b2.
Proof.
  intros Hb2 Hle. unfold percent.
  assert (Ha' : 0 <= inject_Z (Z.of_nat a)).
  { change 0 with (inject_Z 0). rewrite <- Zle_Qle. lia. }
  assert (H1 : 0 < inject_Z (Z.of_nat b1)).
  { change 0 with (inject_Z 0). rewrite <- Zlt_Qlt. lia. }
  assert (H2 : 0 < inject_Z (Z.of_nat b2)).
  { change 0 with (inject_Z 0). rewrite <- Zlt_Qlt. lia. }
  assert (H12 : inject_Z (Z.of_nat b2) <= inject_Z (Z.of_nat b1)).
  { rewrite <- Zle_Qle. lia. }
  apply Qmult_le_compat_r; [| by compute].
  apply Qle_shift_div_l; [done |].
  assert (Heq : inject_Z (Z.of_nat a) / inject_Z (Z.of_nat b1)
                * inject_Z (Z.of_nat b2)
                == inject_Z (Z.of_nat a) * inject_Z (Z.of_nat b2)
                   / inject_Z (Z.of_nat b1)).
  { field. intros H0. rewrite H0 in H1. by apply Qlt_irrefl in H1. }
  rewrite Heq. apply Qle_shift_div_r; [done |].
  rewrite (Qmult_comm _ (inject_Z (Z.of_nat b2))),
    (Qmult_comm _ (inject_Z (Z.of_nat b1))).
  by apply Qmult_le_compat_r.
Qed.

End PercentOrder.

(** X9.  In the scoring pipeline the coverage value, the quotient
    [len(common_snps)/len(pgs_data)*100] of line 84 before it is formatted
    to two decimals, tells the outcome of the overlap check: it is 0 when
    the file is skipped for want of an overlap, and in [(0, 100]] when the
    file reaches the scorer.  The statement is about the value, not about
    the rounded figure of the message. *)
Theorem coverage_tells_the_outcome snps pos_dict d :
  (prepare_weights snps pos_dict d = inl NoOverlap ->
   (coverage snps (normalize pos_dict d) == 0)%Q) /\
  (forall wt, prepare_weights snps pos_dict d = inr wt ->
     (0 < coverage snps (normalize pos_dict d))%Q /\
     (coverage snps (normalize pos_dict d) <= 100)%Q).
Proof.
  pose proof (normalize_length pos_dict d) as Hlen.
  destruct (prepare_weights_cases snps pos_dict d)
    as [(Hs & ->) | [(Hs & Hw & ->) | [(Hs & Hw & Hr & ->)
         | [(Hs & Hw & Hr & Hno & ->) | (Hs & Hw & Hr & Hex & ->)]]]];
    try (split; [done | by intros wt ?]).
  - split; [intros _ | by intros wt ?]. unfold coverage.
    apply percent_zero.
    + rewrite Hlen. destruct (rows d); [done | simpl; lia].
    + by apply common_snps_empty.
  - split; [done |]. intros wt _.
    assert (Hne : rows (normalize pos_dict d) <> []).
    { intros Hnil. rewrite Hnil in Hlen. destruct (rows d); done. }
    destruct (calculator_coverage_spec snps _ Hne) as (_ & H100 & _).
    split; [| done]. unfold coverage. apply percent_pos.
    + assert (Hnz : size (common_snps snps (normalize pos_dict d)) <> 0%nat);
        [| lia].
      intros Hz. destruct Hex as (row & Hrow & Hin).
      by apply (proj1 (common_snps_empty _ _) Hz row Hrow).
    + rewrite Hlen. destruct (rows d); [done | simpl; lia].
Qed.

(** X10.  For a file with rows, the coverage value of the scoring pipeline
    (line 84, before the formatting to two decimals) lies in [[0, 100]]; it
    is 0 exactly when no entry has its canonical identifier in the panel,
    and 100 exactly when every entry has and no identifier is listed
    twice.  The statement is about the value, not about the rounded figure
    of the message. *)
Theorem scoring_coverage_is_full_iff snps d :
  rows d <> [] ->
  (0 <= coverage snps d)%Q /\
  (coverage snps d <= 100)%Q /\
  ((coverage snps d == 0)%Q <->
   forall row, row ∈ rows d -> rsID row ∉ snps) /\
  ((coverage snps d == 100)%Q <->
   NoDup (map rsID (rows d)) /\
   forall row, row ∈ rows d -> rsID row ∈ snps).
Proof.
  intros Hne.
  destruct (calculator_coverage_spec snps d Hne) as (H0 & H100 & Hfull).
  split; [done |]. split; [done |]. split; [| exact Hfull].
  unfold coverage. rewrite percent_zero.
  - apply common_snps_empty.
  - destruct (rows d); [done | simpl; lia].
Qed.

Lemma scoring_coverage_is_full_iff_witness :
  (coverage (bim_ids Examples.panel)
     (normalize (build_pos_dict Examples.panel) Examples.def_B) == 100)%Q.
Proof.
  destruct (scoring_coverage_is_full_iff (bim_ids Examples.panel)
              (normalize (build_pos_dict Examples.panel) Examples.def_B))
    as (_ & _ & _ & Hfull).
  - discriminate.
  - apply Hfull. split; [by_evaluation |].
    intros row Hrow. apply list_elem_of_singleton in Hrow as ->.
    by_evaluation.
Defined.

(** X11.  For a file with rows, the coverage value of the extraction
    pipeline (line 64, before the formatting to two decimals) lies in
    [[0, 100]]; it is 0 exactly when no entry has its canonical identifier
    in the panel, and 100 exactly when every entry has, repeated
    identifiers or not.  The statement is about the value, not about the
    rounded figure of the message. *)
Theorem extraction_coverage_is_full_iff bim d :
  rows d <> [] ->
  (0 <= SnpExtractor.coverage bim d)%Q /\
  (SnpExtractor.coverage bim d <= 100)%Q /\
  ((SnpExtractor.coverage bim d == 0)%Q <->
   forall row, row ∈ rows d -> rsID row ∉ bim_ids bim) /\
  ((SnpExtractor.coverage bim d == 100)%Q <->
   forall row, row ∈ rows d -> rsID row ∈ bim_ids bim).
Proof.
  intros Hne.
  destruct (extractor_coverage_spec bim d Hne) as (H0 & H100 & Hfull).
  split; [done |]. split; [done |]. split; [| exact Hfull].
  unfold SnpExtractor.coverage.
  rewrite percent_zero by (by apply pgs_ids_size_pos).
  apply (common_snps_empty (bim_ids bim) d).
Qed.

Lemma extraction_coverage_is_full_iff_witness :
  (SnpExtractor.coverage Examples.panel Examples.def_twice == 100)%Q.
Proof.
  destruct (extraction_coverage_is_full_iff Examples.panel Examples.def_twice)
    as (_ & _ & _ & Hfull).
  - discriminate.
  - apply Hfull. intros row Hrow.
    apply elem_of_cons in Hrow as [-> | Hrow]; [by_evaluation |].
    apply list_elem_of_singleton in Hrow as ->. by_evaluation.
Defined.

(** X12.  On one and the same file the scoring pipeline never reports more
    coverage than the extraction pipeline, and the two figures agree when
    no identifier is listed twice. *)
Theorem scoring_coverage_below_extraction_coverage bim d :
  rows d <> [] ->
  (coverage (bim_ids bim) d <= SnpExtractor.coverage bim d)%Q /\
  (NoDup (map rsID (rows d)) ->
   (coverage (bim_ids bim) d == SnpExtractor.coverage bim d)%Q).
Proof.
  intros Hne. unfold coverage, SnpExtractor.coverage, common_snps,
    SnpExtractor.common_snps.
  assert (Hle : (size (pgs_ids d) <= length (rows d))%nat).
  { unfold pgs_ids. etrans; [apply size_list_to_set_le |].
    by rewrite length_map. }
  split.
  - apply percent_antitone; [by apply pgs_ids_size_pos | done].
  - intros Hnd. unfold pgs_ids at 3.
    rewrite size_list_to_set by done. by rewrite length_map.
Qed.

Lemma scoring_coverage_below_extraction_coverage_witness :
  (coverage (bim_ids Examples.panel) Examples.def_twice
   <= SnpExtractor.coverage Examples.panel Examples.def_twice)%Q.
Proof.
  refine (proj1 (scoring_coverage_below_extraction_coverage
                   Examples.panel Examples.def_twice _)).
  discriminate.
Defined.

(** ** The scratch directory *)

Lemma process_files_store_other plink_score snps pos_dict st files p :
  (forall f, f ∈ files ->
     profile_path (pgs_name (fst f)) = p ->
     exists e, score_definition plink_score snps pos_dict (snd f) = inl e) ->
  store (process_files plink_score snps pos_dict st files) !! p
  = store st !! p.
Proof.
  revert st. induction files as [|f files IH]; intros st Hno; [done |].
  rewrite process_files_cons, IH.
  - unfold process_file.
    destruct (score_definition plink_score snps pos_dict (snd f))
      as [e | table] eqn:E; [done |]. simpl.
    apply lookup_insert_ne. intros Hp.
    destruct (Hno f (list_elem_of_here _ _) Hp) as [e He]. congruence.
  - intros f' Hf'. by apply Hno, list_elem_of_further.
Qed.

(** X13.  When two scored files share a derived name, the scratch
    directory keeps the score table of the later one: after the loop the
    table stored for a name is that of the last scored file with that
    name. *)
Theorem scratch_keeps_last_scored_table
    plink_score bim scratch l1 fname d l2 table :
  score_definition plink_score (bim_ids bim) (build_pos_dict bim) d
    = inr table ->
  (forall f, f ∈ l2 ->
     profile_path (pgs_name (fst f)) = profile_path (pgs_name fname) ->
     exists e, score_definition plink_score (bim_ids bim)
                 (build_pos_dict bim) (snd f) = inl e) ->
  store (run_loop plink_score bim scratch (l1 ++ (fname, d) :: l2))
    !! profile_path (pgs_name fname)
  = Some table.
Proof.
  intros Hd Hlast. unfold run_loop.
  rewrite process_files_app, process_files_cons.
  rewrite process_files_store_other by done.
  unfold process_file. simpl. rewrite Hd. simpl. apply lookup_insert_eq.
Qed.

Lemma scratch_keeps_last_scored_table_witness :
  store (run_loop Examples.count_scorer Examples.panel ∅
           Examples.colliding_files) !! "a.profile"
  = Some [ mkProfile "F1" "I1" (Some 1%Q); mkProfile "F2" "I2" (Some 1%Q) ].
Proof.
  refine (scratch_keeps_last_scored_table Examples.count_scorer
            Examples.panel ∅ [("a.txt", Examples.def_A)]
            "a.txt.txt" Examples.def_B [] _ eq_refl _).
  intros f Hf. by apply elem_of_nil in Hf.
Defined.

Section Stale.

Variable plink_score : list WeightRow -> option (list ProfileRow).
Variable snps : gset cell.
Variable pos_dict : gmap string cell.

(** Two runs of the loop that start with the same list and with stores that
    agree on the listed files end in the same way. *)
Lemma process_files_agree st1 st2 files :
  profile_files st1 = profile_files st2 ->
  (forall p, p ∈ profile_files st1 -> store st1 !! p = store st2 !! p) ->
  profile_files (process_files plink_score snps pos_dict st1 files)
  = profile_files (process_files plink_score snps pos_dict st2 files) /\
  forall p,
    p ∈ profile_files (process_files plink_score snps pos_dict st1 files) ->
    store (process_files plink_score snps pos_dict st1 files) !! p
    = store (process_files plink_score snps pos_dict st2 files) !! p.
Proof.
  revert st1 st2. induction files as [|f files IH]; intros st1 st2 Hpf Hst;
    [done |].
  rewrite !process_files_cons. apply IH; unfold process_file;
    destruct (score_definition plink_score snps pos_dict (snd f))
      as [e | table]; simpl; try done.
  - by rewrite Hpf.
  - intros p Hp.
    destruct (decide (profile_path (pgs_name (fst f)) = p)) as [-> | Hne].
    + by rewrite !lookup_insert_eq.
    + rewrite !lookup_insert_ne by done. apply Hst.
      apply elem_of_app in Hp as [Hp | Hp]; [done |].
      apply list_elem_of_singleton in Hp. congruence.
Qed.

End Stale.

Lemma add_scores_ext (st1 st2 : gmap string (list ProfileRow)) c files :
  (forall f, f ∈ files -> st1 !! f = st2 !! f) ->
  add_scores st1 c files = add_scores st2 c files.
Proof.
  revert c. induction files as [|f files IH]; intros c Hagree; [done |].
  simpl. unfold add_score. rewrite (Hagree f) by apply list_elem_of_here.
  destruct (st2 !! f) as [df|]; [| done]. simpl.
  apply IH. intros f' Hf'. by apply Hagree, list_elem_of_further.
Qed.

Lemma aggregate_ext (st1 st2 : gmap string (list ProfileRow)) files fam :
  (forall f, f ∈ files -> st1 !! f = st2 !! f) ->
  aggregate st1 files fam = aggregate st2 files fam.
Proof.
  intros Hagree. unfold aggregate, combine_scores.
  destruct files as [|first rest]; [done |].
  rewrite (Hagree first) by apply list_elem_of_here.
  destruct (st2 !! first) as [base|]; [| done].
  change (add_scores st1 {| keys := map profile_key base; score_cols := [] |}
            (first :: rest) ≫= join_phenotype fam
          = add_scores st2 {| keys := map profile_key base; score_cols := [] |}
              (first :: rest) ≫= join_phenotype fam).
  by rewrite (add_scores_ext st1 st2).
Qed.

(** X14.  What the scratch directory holds on entry never reaches the
    result: the run reads only score tables it has written itself, so the
    result is that of a run that starts with an empty scratch directory. *)
Theorem stale_scratch_files_are_ignored
    plink_score writable bim fam scratch files out :
  calculate_pgs plink_score writable bim fam scratch files out
  = calculate_pgs plink_score writable bim fam ∅ files out.
Proof.
  unfold calculate_pgs, run_loop.
  destruct (process_files_agree plink_score (bim_ids bim) (build_pos_dict bim)
              {| store := scratch; profile_files := [] |}
              {| store := ∅; profile_files := [] |} files)
    as [Hpf Hst]; [done | by intros p Hp%elem_of_nil |].
  rewrite <- Hpf.
  destruct (profile_files _) as [|first rest] eqn:E; [done |].
  rewrite (aggregate_ext _ _ _ fam Hst). done.
Qed.

(** ** The score columns of the dataset *)








(** ** The rows of the dataset *)









(** ** When the dataset is written, and what is returned *)




(** ** The order of the scoring files *)




(** ** The extraction pipeline *)

(** X20.  [extract_pgs_snps_to_dataset] returns [(None, None)] whatever
    the scoring file, the panel, the pedigree and the behaviour of the two
    sub-processes: a file without identifier scheme or without identifiers
    is refused, and for every other file the first sub-process call raises
    before [plink] is started. *)
Theorem extraction_pipeline_returns_no_dataset
    Bed plink_extract plink_recode pgs_data bim fam :
  SnpExtractor.extract_pgs_snps_to_dataset Bed plink_extract plink_recode
    pgs_data bim fam = None.
Proof.
  unfold SnpExtractor.extract_pgs_snps_to_dataset.
  destruct (negb (is_rsid_based pgs_data) && negb (is_position_based pgs_data));
    [reflexivity |].
  destruct (size (pgs_ids (normalize (build_pos_dict bim) pgs_data)));
    [reflexivity |].
  (* [Subprocess.run true (Some _) (Some _) _] is the exception *)
  reflexivity.
Qed.

Section LabelVector.

Import SnpExtractor.





End LabelVector.

(** ** Plain file names *)

Section PlainNames.

Variable plink_score : list WeightRow -> option (list ProfileRow).
Variable bim : list BimRow.

Lemma plain_file_stem files f :
  Names.plain files -> f ∈ files ->
  fst f = pgs_name (fst f) +:+ ".txt" /\
  column_name (profile_path (pgs_name (fst f))) = pgs_name (fst f).
Proof.
  intros Hplain Hf. destruct (Hplain f Hf) as (n & Hn & Hdot & _).
  destruct (plain_file_column n Hdot) as [H1 H2].
  rewrite Hn, H1. split; [done |]. by rewrite <- H1 at 1.
Qed.

Lemma plain_column_names scratch files :
  Names.plain files ->
  map column_name (profile_files (run_loop plink_score bim scratch files))
  = omap (Names.scored_name plink_score bim) files.
Proof.
  intros Hplain. rewrite run_loop_profile_files.
  induction files as [|f files IH]; [done |].
  assert (Hrest : Names.plain files).
  { intros f' Hf'. by apply Hplain, list_elem_of_further. }
  destruct (plain_file_stem (f :: files) f Hplain (list_elem_of_here _ _))
    as [_ Hcol].
  simpl. unfold Names.scored_name at 1.
  destruct (score_definition plink_score (bim_ids bim) (build_pos_dict bim)
              (snd f)); simpl.
  - by apply IH.
  - rewrite Hcol. f_equal. by apply IH.
Qed.

Lemma plain_scored_names_NoDup files :
  Names.plain files ->
  NoDup (map fst files) ->
  NoDup (omap (Names.scored_name plink_score bim) files).
Proof.
  intros Hplain Hnd. induction files as [|f files IH]; [apply NoDup_nil_2 |].
  assert (Hrest : Names.plain files).
  { intros f' Hf'. by apply Hplain, list_elem_of_further. }
  simpl in Hnd. apply NoDup_cons in Hnd as [Hf Hnd].
  simpl. destruct (Names.scored_name plink_score bim f) as [name|] eqn:E;
    [| by apply IH].
  apply NoDup_cons. split; [| by apply IH].
  intros Hin. apply list_elem_of_omap in Hin as (f' & Hf' & E').
  apply Hf. change (map fst files) with (fst <$> files).
  apply list_elem_of_fmap. exists f'. split; [| done].
  destruct (plain_file_stem (f :: files) f Hplain (list_elem_of_here _ _))
    as [Hstem _].
  destruct (plain_file_stem (f :: files) f' Hplain
              (list_elem_of_further _ _ _ Hf')) as [Hstem' _].
  rewrite Hstem, Hstem'. f_equal.
  unfold Names.scored_name in E, E'.
  destruct (score_definition _ _ _ (snd f)); [done |].
  destruct (score_definition _ _ _ (snd f')); [done |].
  congruence.
Qed.

(** X22.  When every file of the folder is called [n.txt] with a stem [n]
    that holds no full stop, the header of the dataset is [FID], [IID],
    the stems of the scored files in the order of the loop, [y]: one score
    column per scored definition. *)
Theorem plain_file_names_give_one_column_each
    writable fam scratch files out ds :
  output_csv (calculate_pgs plink_score writable bim fam scratch files out)
  = Some ds ->
  (forall f, f ∈ files ->
     exists n, fst f = n +:+ ".txt" /\ PyStr.dotless n = true /\
               n <> "FID" /\ n <> "IID") ->
  NoDup (map fst files) ->
  header ds
  = "FID" :: "IID"
    :: omap (fun f =>
               match score_definition plink_score (bim_ids bim)
                       (build_pos_dict bim) (snd f) with
               | inr _ => Some (pgs_name (fst f))
               | inl _ => None
               end) files
    ++ ["y"] /\
  forall f, f ∈ files -> fst f = pgs_name (fst f) +:+ ".txt".
Proof.
  intros Hout Hplain Hnd. split.
  - rewrite (header_in_processing_order _ _ _ _ _ _ _ _ Hout).
    + by rewrite plain_column_names.
    + rewrite plain_column_names by done.
      by apply plain_scored_names_NoDup.
  - intros f Hf. by apply (plain_file_stem files f Hplain Hf).
Qed.

End PlainNames.

Lemma plain_file_names_give_one_column_each_witness :
  header Examples.scenario_dataset = ["FID"; "IID"; "A"; "B"; "y"].
Proof.
  refine (proj1 (plain_file_names_give_one_column_each
                   Examples.count_scorer Examples.panel Examples.disk
                   Examples.pedigree ∅ Examples.scenario_files
                   Examples.out_path Examples.scenario_dataset _ _ _)).
  - vm_compute. reflexivity.
  - intros f Hf. apply elem_of_cons in Hf as [-> | Hf].
    + exists "A". repeat split; discriminate.
    + apply list_elem_of_singleton in Hf as ->.
      exists "B". repeat split; discriminate.
  - by_evaluation.
Defined.
